(** * karl-chat: a shallow embedding of the backend's own logic

    The development follows the repository's JavaScript sources:
    - [backend/config.js]            (class [ConfigLoader]),
    - [backend/utils/neo4j-utils.js] (class [Neo4jUtils]),
    - [backend/Server.js]            ([initializeRAG], [parseThinkingResponse]
                                      and the HTTP handlers).

    JavaScript strings are sequences of UTF-16 code units, objects are finite
    maps from property names to values, and the module-level variables of
    [Server.js] are threaded explicitly as a state record. *)

From Stdlib Require Import ZArith String Ascii List Lia DecimalString.
From Stdlib Require Import Floats.PrimFloat Uint63.
From stdpp Require Import gmap list.

#[local] Set Warnings "-register-all".

(* ===================================================================== *)
(** ** JavaScript values and the string primitives the sources rely on   *)
(* ===================================================================== *)

Module JS.

(** A string is the list of its UTF-16 code units. *)
Abbreviation jsstring := (list Z).

(** ASCII literals of the sources: one code unit per character. *)
Definition js (s : string) : jsstring :=
  (λ a, Z.of_nat (nat_of_ascii a)) <$> list_ascii_of_string s.
Arguments js s%_string.

(** The values that reach the code under study: what [JSON.parse] produces,
    plus [undefined].  Numbers are IEEE-754 doubles.  An object lists its
    members in source order; a later member with the same name wins.
    Objects are read as finite maps from their own property names to
    values: the order of the properties is not kept.  [JSON.parse] and
    object spread define every name, [__proto__] included, as an own
    property; assignment does not, see [assign]. *)
Inductive JValue : Type :=
  | JUndef
  | JNull
  | JBool (b : bool)
  | JNum (x : float)
  | JStr (s : jsstring)
  | JArr (xs : list JValue)
  | JObj (members : list (jsstring * JValue)).

(** [typeof v] *)
Inductive JType := TUndefined | TObject | TBoolean | TNumber | TString.

Definition typeof (v : JValue) : JType :=
  match v with
  | JUndef => TUndefined
  | JNull | JArr _ | JObj _ => TObject
  | JBool _ => TBoolean
  | JNum _ => TNumber
  | JStr _ => TString
  end.

(** [ToBoolean]: [undefined], [null], [false], [+0], [-0], [NaN] and the empty
    string are falsy; everything else is truthy. *)
Definition truthy (v : JValue) : bool :=
  match v with
  | JUndef | JNull => false
  | JBool b => b
  | JNum x => negb (PrimFloat.is_zero x || PrimFloat.is_nan x)
  | JStr s => negb (bool_decide (s = []))
  | JArr _ | JObj _ => true
  end.

(** Reading [o[k]] where the property may be missing: a missing property
    reads as [undefined]. *)
Definition read (o : option JValue) : JValue := default JUndef o.

(** *** [String.prototype.trim]

    WhiteSpace and LineTerminator code units of ECMAScript: TAB, LF, VT, FF,
    CR, SP, NBSP, U+1680, U+2000..U+200A, U+2028, U+2029, U+202F, U+205F,
    U+3000 and U+FEFF. *)
Definition isWhiteSpace (c : Z) : bool :=
  bool_decide (c ∈ [9; 10; 11; 12; 13; 32; 160; 5760; 8232; 8233; 8239; 8287;
                    12288; 65279]%Z)
  || ((8192 <=? c)%Z && (c <=? 8202)%Z).

Fixpoint trimStart (s : jsstring) : jsstring :=
  match s with
  | [] => []
  | c :: s' => if isWhiteSpace c then trimStart s' else s
  end.

Fixpoint trimEnd (s : jsstring) : jsstring :=
  match s with
  | [] => []
  | c :: s' =>
      match trimEnd s' with
      | [] => if isWhiteSpace c then [] else [c]
      | t => c :: t
      end
  end.

Definition trim (s : jsstring) : jsstring := trimEnd (trimStart s).

(** *** Case-insensitive matching of an ASCII pattern ([/.../i], no [u] flag)

    Without the [u] flag two code units match when their [Canonicalize]
    images agree; [Canonicalize] upper-cases a code unit but never maps a
    non-ASCII code unit to an ASCII one.  Every pattern character of the
    sources is ASCII, so against such a pattern only ASCII input can match,
    and for ASCII [Canonicalize] is [a..z ↦ A..Z]. *)
Definition canonicalize (c : Z) : Z :=
  if ((97 <=? c) && (c <=? 122))%Z then (c - 32)%Z else c.

Definition ci_char (p c : Z) : bool := (canonicalize p =? canonicalize c)%Z.

(** [s] starts with a case-insensitive copy of [pat]. *)
Fixpoint prefix_ci (pat s : jsstring) : bool :=
  match pat, s with
  | [], _ => true
  | _ :: _, [] => false
  | p :: pat', c :: s' => ci_char p c && prefix_ci pat' s'
  end.

(** Leftmost position at which [pat] matches: the regex engine tries the
    start positions [0, 1, 2, ...] in turn. *)
Fixpoint search_ci (pat s : jsstring) : option nat :=
  if prefix_ci pat s then Some 0
  else match s with
       | [] => None
       | _ :: s' => S <$> search_ci pat s'
       end.

(** *** [String.prototype.includes]: exact code-unit comparison *)
Fixpoint startsWith (pat s : jsstring) : bool :=
  match pat, s with
  | [], _ => true
  | _ :: _, [] => false
  | p :: pat', c :: s' => bool_decide (p = c) && startsWith pat' s'
  end.

Fixpoint includes (s pat : jsstring) : bool :=
  startsWith pat s ||
  match s with
  | [] => false
  | _ :: s' => includes s' pat
  end.

(** A call either returns a value or throws an [Error] with a message. *)
Inductive Completion (A : Type) : Type :=
  | Return (a : A)
  | Throw (message : jsstring).
Arguments Return {A} a.
Arguments Throw {A} message.

(** The number value of a length or an index (exact below 2^53, which
    bounds the length of every string). *)
Definition num_of_nat (n : nat) : float :=
  PrimFloat.of_uint63 (Uint63.of_Z (Z.of_nat n)).

(** The property name of an array index: its decimal numeral. *)
Definition index_key (i : nat) : jsstring :=
  js (NilEmpty.string_of_uint (Nat.to_uint i)).

(** The own enumerable properties of an object literal or a parsed JSON
    object: members are defined in order, a later one replaces an earlier one
    of the same name. *)
Definition obj_map (members : list (jsstring * JValue))
  : gmap jsstring JValue :=
  foldl (λ m kv, <[kv.1 := kv.2]> m) ∅ members.

Definition index_map (xs : list JValue) : gmap jsstring JValue :=
  list_to_map (imap (λ i v, (index_key i, v)) xs).

(** What object spread [{...v}] and [Object.entries(v)] see of [v]: the own
    enumerable string-keyed properties.  Arrays and strings expose their
    indexed elements, the other primitives and [null]/[undefined] nothing. *)
Definition spread (v : JValue) : gmap jsstring JValue :=
  match v with
  | JObj members => obj_map members
  | JArr xs => index_map xs
  | JStr s => index_map ((λ c, JStr [c]) <$> s)
  | JUndef | JNull | JBool _ | JNum _ => ∅
  end.

(** [v[name]] for the property names the sources read from parsed JSON
    ('karl-chat', 'topic', 'question', 'source'): none of them is an array
    index, ['length'] or a name defined on a built-in prototype, so only an
    object can have it.  Reading a property of [null] or [undefined] throws a
    [TypeError]: [None]. *)
Definition member (v : JValue) (name : jsstring) : option JValue :=
  match v with
  | JUndef | JNull => None
  | JObj members => Some (read (obj_map members !! name))
  | JBool _ | JNum _ | JStr _ | JArr _ => Some JUndef
  end.

(** [o[key] = value] on an object that the code created as [{}], seen
    through the own properties of [o].  [Object.prototype] has an accessor
    named [__proto__]: assigning to that name runs its setter, which makes
    an object, an array or [null] the prototype of [o] and ignores any other
    value; in no case does [o] get an own property of that name.  Every
    other name becomes an own property of [o], whatever the prototype of [o]
    is by then: the properties of the built-in prototypes and of parsed
    values are writable data properties.  None of the names that the sources
    read from such an object afterwards ('source', 'chunk_id', 'id') is a
    property of an array or of a built-in prototype, so a changed prototype
    does not show in these reads. *)
Definition PROTO : jsstring := js "__proto__".

Definition assign (o : gmap jsstring JValue) (key : jsstring) (value : JValue)
  : gmap jsstring JValue :=
  if bool_decide (key = PROTO) then o else <[key := value]> o.

(** The names that every plain object inherits from [Object.prototype]: the
    standard ones and the legacy accessors.  What is found under each is a
    built-in function, or for [__proto__] the prototype object: never
    [undefined]. *)
Definition objectPrototypeNames : list jsstring :=
  [ js "constructor"; js "hasOwnProperty"; js "isPrototypeOf";
    js "propertyIsEnumerable"; js "toLocaleString"; js "toString";
    js "valueOf"; js "__proto__"; js "__defineGetter__";
    js "__defineSetter__"; js "__lookupGetter__"; js "__lookupSetter__" ].

(** [Array.prototype.join] on strings. *)
Fixpoint join (sep : jsstring) (xs : list jsstring) : jsstring :=
  match xs with
  | [] => []
  | [x] => x
  | x :: xs' => x ++ sep ++ join sep xs'
  end.

End JS.
Export JS.

(* ===================================================================== *)
(** ** [parseThinkingResponse] (backend/Server.js)                       *)
(* ===================================================================== *)

Module Thinking.

Record ParsedResponse := {
  thinking : option jsstring;   (* [null] is [None] *)
  response : jsstring;
  hasThinking : bool
}.

Definition OPEN : jsstring := js "<think>".
Definition CLOSE : jsstring := js "</think>".

(** [response.match(thinkRegex)], where [thinkRegex] is an opening tag, a
    lazy captured run of arbitrary characters and a closing tag, matched
    case-insensitively: the leftmost opening tag that is followed by a
    closing tag, then, the quantifier being lazy, the nearest closing tag.
    The result is the text before the match, the captured group and the text
    after the match. *)
Definition match_think (s : jsstring)
  : option (jsstring * jsstring * jsstring) :=
  i ← search_ci OPEN s;
  let after := drop (i + length OPEN) s in
  j ← search_ci CLOSE after;
  Some (take i s, take j after, drop (j + length CLOSE) after).

(** The introductory phrases of [thinkingPatterns], in order. *)
Definition thinkingPatterns : list jsstring :=
  [ js "Let me think about this"; js "I need to consider";
    js "Thinking through this" ].

(** [response.match(pattern)] for a pattern of [thinkingPatterns]: anchored
    at the start, case-insensitive, group 1 is the phrase followed by a lazy
    run of arbitrary characters, then a blank line (two LF), and group 2 is a
    greedy run of arbitrary characters.  So the phrase must open the text,
    the first blank line after it ends group 1, and group 2 is everything
    after that blank line. *)
Definition match_intro (phrase s : jsstring) : option (jsstring * jsstring) :=
  if prefix_ci phrase s then
    j ← search_ci [10; 10]%Z (drop (length phrase) s);
    Some (take (length phrase + j) s, drop (length phrase + j + 2) s)
  else None.

(** The [for (const pattern of thinkingPatterns)] loop. *)
Fixpoint try_patterns (ps : list jsstring) (s : jsstring)
  : option ParsedResponse :=
  match ps with
  | [] => None
  | p :: ps' =>
      match match_intro p s with
      | Some (m1, m2) =>
          if 50 <? length m1
          then Some {| thinking := Some (trim m1); response := trim m2;
                       hasThinking := true |}
          else try_patterns ps' s
      | None => try_patterns ps' s
      end
  end.

Definition parseThinkingResponse (s : jsstring) : ParsedResponse :=
  match match_think s with
  | Some (pre, body, post) =>
      {| thinking := Some (trim body); response := trim (pre ++ post);
         hasThinking := true |}
  | None =>
      match try_patterns thinkingPatterns s with
      | Some r => r
      | None => {| thinking := None; response := trim s; hasThinking := false |}
      end
  end.

End Thinking.

(* ===================================================================== *)
(** ** [ConfigLoader] (backend/config.js)                                *)
(* ===================================================================== *)

Module Config.

(** The exported singleton is [new ConfigLoader('karl-chat')]. *)
Definition moduleName : jsstring := js "karl-chat".

Definition getDefaults : gmap jsstring JValue :=
  obj_map
    [ (js "OLLAMA_HOST", JStr (js "localhost"));
      (js "OLLAMA_PORT", JStr (js "11434"));
      (js "DEFAULT_MODEL", JStr (js "llama3.2"));
      (js "NEO4J_URI", JStr (js "bolt://localhost:7687"));
      (js "NEO4J_USERNAME", JStr (js "neo4j"));
      (js "NEO4J_PASSWORD", JStr (js "password"));
      (js "SERVER_PORT", JNum 5000%float);
      (js "CORS_ORIGIN", JStr (js "http://localhost:3000"));
      (js "LOG_LEVEL", JStr (js "info")) ].

(** What [fs.existsSync] / [JSON.parse(fs.readFileSync(path))] make of a
    configuration path: no such file, a file whose reading or parsing throws,
    or the parsed value. *)
Inductive FileState :=
  | Absent
  | Unreadable
  | Parsed (v : JValue).

(** The surroundings of one [loadConfig] run.
    - [ancestors]: the [config.json] of every proper ancestor directory of
      [__dirname], nearest first, the last one being the filesystem root
      (where [path.resolve(dir, '..') === dir] ends the walk);
    - the three paths of [localConfigPaths], in order (the third one is, on
      disk, the [config.json] of the nearest ancestor; the theorems below hold
      for every combination of file states, hence also when the two agree);
    - [environ]: [process.env], whose values are strings. *)
Record Sources := {
  ancestors : list FileState;
  static_settings_JSON : FileState;
  configs_config_json : FileState;
  parent_config_json : FileState;
  environ : gmap jsstring jsstring
}.

Definition localConfigPaths (w : Sources) : list FileState :=
  [ static_settings_JSON w; configs_config_json w; parent_config_json w ].

Definition maxLevels : nat := 5.

(** The body of the [try] in [loadParentConfigs] once the file has parsed:
    merge the file, then its module-specific section when that is truthy.
    When [parentConfig[this.moduleName]] throws, the [catch] only logs and
    the first merge stays. *)
Definition merge_parent (cfg : gmap jsstring JValue) (parentConfig : JValue)
  : gmap jsstring JValue :=
  let cfg1 := spread parentConfig ∪ cfg in
  match member parentConfig moduleName with
  | Some section =>
      if truthy section then spread section ∪ cfg1 else cfg1
  | None => cfg1
  end.

(** One level of the walk: [if (fs.existsSync(configPath)) { try ... }]. *)
Definition visit (cfg : gmap jsstring JValue) (f : FileState)
  : gmap jsstring JValue :=
  match f with
  | Parsed parentConfig => merge_parent cfg parentConfig
  | Absent | Unreadable => cfg
  end.

(** The [for (let level = 0; level < maxLevels; level++)] loop; [dirs] are
    the ancestors not visited yet. *)
Fixpoint walk (levels : nat) (dirs : list FileState)
    (cfg : gmap jsstring JValue) : gmap jsstring JValue :=
  match levels, dirs with
  | S levels', f :: dirs' => walk levels' dirs' (visit cfg f)
  | _, _ => cfg
  end.

Definition loadParentConfigs (dirs : list FileState)
    (cfg : gmap jsstring JValue) : gmap jsstring JValue :=
  walk maxLevels dirs cfg.

(** The [for (const configPath of localConfigPaths)] loop with its [break]. *)
Fixpoint loadLocalConfig (paths : list FileState)
    (cfg : gmap jsstring JValue) : gmap jsstring JValue :=
  match paths with
  | [] => cfg
  | Parsed localConfig :: _ => spread localConfig ∪ cfg
  | (Absent | Unreadable) :: paths' => loadLocalConfig paths' cfg
  end.

(** [envMapping], as [Object.entries] lists it: (configKey, envKey). *)
Definition envMapping : list (jsstring * jsstring) :=
  [ (js "OLLAMA_HOST", js "OLLAMA_HOST");
    (js "OLLAMA_PORT", js "OLLAMA_PORT");
    (js "DEFAULT_MODEL", js "DEFAULT_MODEL");
    (js "NEO4J_URI", js "NEO4J_URI");
    (js "NEO4J_USERNAME", js "NEO4J_USERNAME");
    (js "NEO4J_PASSWORD", js "NEO4J_PASSWORD");
    (js "SERVER_PORT", js "PORT");
    (js "CORS_ORIGIN", js "CORS_ORIGIN");
    (js "LOG_LEVEL", js "LOG_LEVEL") ].

(** [process.env[envKey]]: [undefined] when the variable is not set. *)
Definition getenv (env : gmap jsstring jsstring) (envKey : jsstring) : JValue :=
  read (JStr <$> env !! envKey).

(** The callback of [Object.entries(envMapping).forEach]. *)
Definition env_step (env : gmap jsstring jsstring)
    (cfg : gmap jsstring JValue) (entry : jsstring * jsstring)
  : gmap jsstring JValue :=
  let '(configKey, envKey) := entry in
  if truthy (getenv env envKey)
  then <[configKey := getenv env envKey]> cfg
  else cfg.

Definition loadEnvironmentConfig (env : gmap jsstring jsstring)
    (cfg : gmap jsstring JValue) : gmap jsstring JValue :=
  foldl (env_step env) cfg envMapping.

Definition loadConfig (w : Sources) : gmap jsstring JValue :=
  loadEnvironmentConfig (environ w)
    (loadLocalConfig (localConfigPaths w)
       (loadParentConfigs (ancestors w) getDefaults)).

(** What [get] can return: a value of the configuration or the caller's
    default, or a built-in that [this.config] inherits. *)
Inductive Looked :=
  | Data (v : JValue)
  | Builtin (name : jsstring).

(** [get(key, defaultValue)].  [this.config[key]] is the own property when
    there is one, and otherwise what [Object.prototype] has under that name;
    [this.config] is always the result of an object spread, so that is its
    prototype. *)
Definition get (cfg : gmap jsstring JValue) (key : jsstring)
    (defaultValue : JValue) : Looked :=
  match cfg !! key with
  | Some JUndef => Data defaultValue
  | Some v => Data v
  | None =>
      if bool_decide (key ∈ objectPrototypeNames) then Builtin key
      else Data defaultValue
  end.

(** [validate()] *)
Definition required : list jsstring :=
  [ js "OLLAMA_HOST"; js "OLLAMA_PORT"; js "DEFAULT_MODEL" ].

Definition missing (cfg : gmap jsstring JValue) : list jsstring :=
  List.filter (λ key, negb (truthy (read (cfg !! key)))) required.

Definition validate (cfg : gmap jsstring JValue) : Completion bool :=
  match missing cfg with
  | [] => Return true
  | keys =>
      Throw (js "Missing required configuration: " ++ join (js ", ") keys)
  end.

(** [getSafeConfig()].  [String.prototype.toUpperCase] follows the Unicode
    case tables of the engine; it is taken as given. *)
Section Safe.
Variable toUpperCase : jsstring → jsstring.

Definition sensitive : list jsstring :=
  [ js "NEO4J_PASSWORD"; js "API_KEY"; js "SECRET" ].

Definition isSensitive (key : jsstring) : bool :=
  existsb (λ s, includes (toUpperCase key) s) sensitive.

(** The callback of [Object.entries(this.config).forEach]. *)
Definition safe_step (safeConfig : gmap jsstring JValue)
    (entry : jsstring * JValue) : gmap jsstring JValue :=
  let '(key, value) := entry in
  if isSensitive key
  then assign safeConfig key (JStr (js "***"))
  else assign safeConfig key value.

(** The own properties of the object that [getSafeConfig()] returns, which
    is what [res.json] and [Object.entries] see of it.  The entries have
    distinct keys, so the order in which [forEach] visits them does not show
    in the result. *)
Definition getSafeConfig (cfg : gmap jsstring JValue)
  : gmap jsstring JValue :=
  foldl safe_step ∅ (map_to_list cfg).
End Safe.

End Config.

(* ===================================================================== *)
(** ** [Neo4jUtils] (backend/utils/neo4j-utils.js)                       *)
(* ===================================================================== *)

Module Neo4j.

(** A LangChain document: [{ pageContent, metadata }]. *)
Record Document (M : Type) := {
  pageContent : jsstring;
  metadata : M
}.
Arguments pageContent {M} d.
Arguments metadata {M} d.

(** Documents as the loader and the splitter hand them over, and documents
    whose metadata has been rebuilt as a fresh object. *)
Abbreviation RawDoc := (Document JValue).
Abbreviation CleanDoc := (Document (gmap jsstring JValue)).

(** [a || b] *)
Definition or_else (a b : JValue) : JValue := if truthy a then a else b.

Definition nullish (v : JValue) : bool :=
  match v with
  | JUndef | JNull => true
  | _ => false
  end.

(** [isPrimitiveType(value)] *)
Fixpoint isPrimitiveType (value : JValue) : bool :=
  match value with
  | JStr _ | JNum _ | JBool _ => true
  | JNull | JUndef => true
  | JArr items => forallb isPrimitiveType items
  | JObj _ => false
  end.

Section Clean.
(** [JSON.stringify], [String], the text of the template
    [`chunk_${index}_${Date.now()}`] and of [new Date().toISOString()] are
    the engine's. *)
Variable JSON_stringify : JValue → Completion jsstring.
Variable String_ : JValue → jsstring.
Variable chunk_id_text : nat → jsstring.
Variable iso_now : nat → jsstring.

(** The callback of [Object.entries(doc.metadata || {}).forEach]. *)
Definition clean_entry (cleanedMetadata : gmap jsstring JValue)
    (entry : jsstring * JValue) : gmap jsstring JValue :=
  let '(key, value) := entry in
  if isPrimitiveType value then assign cleanedMetadata key value
  else if negb (nullish value) then
    match JSON_stringify value with
    | Return text => assign cleanedMetadata key (JStr text)
    | Throw _ => assign cleanedMetadata key (JStr (String_ value))
    end
  else cleanedMetadata.

(** The callback of [documents.map((doc, index) => ...)]. *)
Definition clean_document (index : nat) (doc : RawDoc) : CleanDoc :=
  let entries := map_to_list (spread (or_else (metadata doc) (JObj []))) in
  let m := foldl clean_entry ∅ entries in
  let m := <[js "source" :=
               or_else (read (m !! js "source")) (JStr (js "unknown"))]> m in
  let m := <[js "chunk_id" :=
               or_else (read (m !! js "chunk_id"))
                       (JStr (chunk_id_text index))]> m in
  let m := <[js "created_at" := JStr (iso_now index)]> m in
  let m := <[js "content_length" :=
               JNum (num_of_nat (length (pageContent doc)))]> m in
  {| pageContent := pageContent doc; metadata := m |}.

Definition cleanDocumentMetadata (documents : list RawDoc) : list CleanDoc :=
  imap clean_document documents.
End Clean.

End Neo4j.

(* ===================================================================== *)
(** ** [Server.js]: initialization and the HTTP handlers                 *)
(* ===================================================================== *)

Module Server.
Import Neo4j Thinking.

Inductive ChatModel := ChatOllama.
Inductive VectorStore := Neo4jVectorStore (chunks : list CleanDoc).
Inductive Retriever := AsRetriever (store : VectorStore).

(** What the server does to the outside: calls of the collaborators and the
    per-URL error line of the loading loop. *)
Inductive Event :=
  | EModelInvoke (prompt : jsstring)
  | ELoad (url : jsstring)
  | ELoadError (url message : jsstring)
  | ESplit (docs : list RawDoc)
  | EStore (chunks : list CleanDoc)
  | EChain (promptTemplate : jsstring) (input : JValue).

(** The module-level variables, and the effects so far. *)
Record State := {
  vectorstore : option VectorStore;
  retriever : option Retriever;
  chatModel : option ChatModel;
  isInitializing : bool;
  initializationError : option jsstring;
  effects : list Event
}.

(** The collaborators and the constants read from the configuration.
    - [OLLAMA_HOST], [OLLAMA_PORT], [NEO4J_URI]: the text of the module
      constants as the error messages interpolate them;
    - [urls]: the items of [config.get('DOCUMENT_URLS', [...])];
    - [BEFORE_RAG_PROMPT], [RAG_PROMPT]: the prompts that [config.get]
      returns, configured or default;
    - [model_invoke]: [chatModel.invoke(prompt)];
    - [loader_load]: [new CheerioWebBaseLoader(url).load()];
    - [splitDocuments]: [textSplitter.splitDocuments(docs)];
    - [fromDocuments]: [Neo4jVectorStore.fromDocuments(chunks, ...)];
    - [chain_invoke]: [chain.invoke(input)] for the chain built from a
      prompt template (for the retrieval chain this includes the retriever);
    - [JSON_stringify]: [JSON.stringify];
    - [fresh_id]: the text of [`doc_${Date.now()}_${Math.random()...}`] for
      the document at an index;
    - [type_error_text]: the message of the engine's [TypeError] for
      destructuring [null] or [undefined]. *)
Record World := {
  OLLAMA_HOST : jsstring;
  OLLAMA_PORT : jsstring;
  NEO4J_URI : jsstring;
  urls : list jsstring;
  BEFORE_RAG_PROMPT : jsstring;
  RAG_PROMPT : jsstring;
  model_invoke : jsstring → Completion jsstring;
  loader_load : jsstring → Completion (list RawDoc);
  splitDocuments : list RawDoc → Completion (list RawDoc);
  fromDocuments : list CleanDoc → Completion unit;
  chain_invoke : jsstring → JValue → Completion jsstring;
  JSON_stringify : JValue → Completion jsstring;
  fresh_id : nat → jsstring;
  type_error_text : jsstring
}.

Definition emit (e : Event) (st : State) : State :=
  {| vectorstore := vectorstore st; retriever := retriever st;
     chatModel := chatModel st; isInitializing := isInitializing st;
     initializationError := initializationError st;
     effects := effects st ++ [e] |}.

(** *** The inline metadata cleaning of [initializeRAG] *)

(** The callback of [Object.entries(doc.metadata || {}).forEach];
    [JSON.stringify] may throw, which leaves the whole [map]. *)
Definition cleaned_entry (w : World)
    (acc : Completion (gmap jsstring JValue)) (entry : jsstring * JValue)
  : Completion (gmap jsstring JValue) :=
  match acc with
  | Throw message => Throw message
  | Return cleanedMetadata =>
      let '(key, value) := entry in
      match typeof value with
      | TString | TNumber | TBoolean => Return (assign cleanedMetadata key value)
      | TUndefined | TObject =>
          if nullish value then Return cleanedMetadata
          else match JSON_stringify w value with
               | Return text => Return (assign cleanedMetadata key (JStr text))
               | Throw message => Throw message
               end
      end
  end.

(** [doc.metadata?.source] *)
Definition optional_source (md : JValue) : JValue :=
  if nullish md then JUndef else default JUndef (member md (js "source")).

Definition cleaned_document (w : World) (index : nat) (doc : RawDoc)
  : Completion CleanDoc :=
  let entries := map_to_list (spread (or_else (metadata doc) (JObj []))) in
  match foldl (cleaned_entry w) (Return ∅) entries with
  | Throw message => Throw message
  | Return m =>
      let m := <[js "source" :=
                   or_else (or_else (read (m !! js "source"))
                                    (optional_source (metadata doc)))
                           (JStr (js "unknown"))]> m in
      let m := <[js "id" :=
                   or_else (read (m !! js "id")) (JStr (fresh_id w index))]> m in
      Return {| pageContent := pageContent doc; metadata := m |}
  end.

(** [docSplits.map(doc => ...)] *)
Fixpoint clean_from (w : World) (index : nat) (docSplits : list RawDoc)
  : Completion (list CleanDoc) :=
  match docSplits with
  | [] => Return []
  | doc :: rest =>
      match cleaned_document w index doc with
      | Throw message => Throw message
      | Return d =>
          match clean_from w (S index) rest with
          | Throw message => Throw message
          | Return ds => Return (d :: ds)
          end
      end
  end.

Definition cleanedDocSplits (w : World) (docSplits : list RawDoc)
  : Completion (list CleanDoc) :=
  clean_from w 0 docSplits.

(** *** [initializeRAG]

    The function is [async]: it runs until its next [await], and other
    requests are served while the awaited collaborator works.  [Pc] names the
    [await] at which a run is suspended, with the local variables live there;
    [Done] is a settled promise. *)
Inductive Pc :=
  | AtModel
  | AtLoad (docs : list RawDoc) (url : jsstring) (rest : list jsstring)
  | AtSplit (docs : list RawDoc)
  | AtStore (chunks : list CleanDoc)
  | Done (result : Completion unit).

Definition msg_ollama (w : World) : jsstring :=
  js "Cannot connect to Ollama at " ++ OLLAMA_HOST w ++ js ":" ++ OLLAMA_PORT w
  ++ js ". Make sure Ollama is running.".

Definition msg_no_documents : jsstring :=
  js "No documents were successfully loaded from URLs".

Definition msg_neo4j (w : World) : jsstring :=
  js "Cannot connect to Neo4j at " ++ NEO4J_URI w
  ++ js ". Make sure Neo4j is running with correct credentials.".

(** The outer [catch] followed by [finally]: record the message, clear the
    flag, rethrow. *)
Definition fail (message : jsstring) (st : State) : State * Pc :=
  ({| vectorstore := vectorstore st; retriever := retriever st;
      chatModel := chatModel st; isInitializing := false;
      initializationError := Some message; effects := effects st |},
   Done (Throw message)).

(** Successful end of the [try]: the store and the retriever are assigned,
    then [finally] clears the flag. *)
Definition succeed (chunks : list CleanDoc) (st : State) : State * Pc :=
  ({| vectorstore := Some (Neo4jVectorStore chunks);
      retriever := Some (AsRetriever (Neo4jVectorStore chunks));
      chatModel := chatModel st; isInitializing := false;
      initializationError := initializationError st; effects := effects st |},
   Done (Return tt)).

(** The call itself, up to the first [await]. *)
Definition enter (st : State) : State * Pc :=
  if isInitializing st then (st, Done (Return tt))
  else
    (emit (EModelInvoke (js "Hello"))
       {| vectorstore := vectorstore st; retriever := retriever st;
          chatModel := Some ChatOllama; isInitializing := true;
          initializationError := None; effects := effects st |},
     AtModel).

(** After the [for (const url of urls)] loop. *)
Definition after_loads (docs : list RawDoc) (st : State) : State * Pc :=
  match docs with
  | [] => fail msg_no_documents st
  | _ :: _ => (emit (ESplit docs) st, AtSplit docs)
  end.

(** The head of the loop: the next URL, if any. *)
Definition next_url (docs : list RawDoc) (remaining : list jsstring)
    (st : State) : State * Pc :=
  match remaining with
  | [] => after_loads docs st
  | url :: rest => (emit (ELoad url) st, AtLoad docs url rest)
  end.

(** One resumption: from the settled [await] to the next one. *)
Definition resume (w : World) (c : State * Pc) : State * Pc :=
  let '(st, pc) := c in
  match pc with
  | AtModel =>
      match model_invoke w (js "Hello") with
      | Throw _ => fail (msg_ollama w) st
      | Return _ => next_url [] (urls w) st
      end
  | AtLoad docs url rest =>
      match loader_load w url with
      | Return loadedDocs => next_url (docs ++ loadedDocs) rest st
      | Throw message => next_url docs rest (emit (ELoadError url message) st)
      end
  | AtSplit docs =>
      match splitDocuments w docs with
      | Throw message => fail message st
      | Return docSplits =>
          match cleanedDocSplits w docSplits with
          | Throw message => fail message st
          | Return chunks => (emit (EStore chunks) st, AtStore chunks)
          end
      end
  | AtStore chunks =>
      match fromDocuments w chunks with
      | Return _ => succeed chunks st
      | Throw _ => fail (msg_neo4j w) st
      end
  | Done result => (st, Done result)
  end.

Fixpoint run (n : nat) (w : World) (c : State * Pc) : State * Pc :=
  match n with
  | 0 => c
  | S n' => run n' w (resume w c)
  end.

(** A whole call awaited to its end: the loop takes one resumption per URL,
    the rest of the body three. *)
Definition initializeRAG (w : World) (st : State) : State * Pc :=
  run (length (urls w) + 3) w (enter st).

(** *** The HTTP handlers *)

Record Response := {
  status : Z;
  body : JValue
}.

Definition json (b : JValue) : Response := {| status := 200; body := b |}.

(** [POST /api/initialize] *)
Definition post_initialize (w : World) (st : State) : State * Response :=
  match vectorstore st with
  | Some _ =>
      (st, json (JObj [ (js "success", JBool true);
                        (js "message", JStr (js "RAG system already initialized")) ]))
  | None =>
      match initializeRAG w st with
      | (st', Done (Throw message)) =>
          (st', {| status := 500;
                   body := JObj [ (js "success", JBool false);
                                  (js "error", JStr message);
                                  (js "details",
                                   JStr (js "Check server logs for more information")) ] |})
      | (st', _) =>
          (* the awaited promise has resolved; a run of this length is
             always settled *)
          (st', json (JObj [ (js "success", JBool true);
                             (js "message",
                              JStr (js "RAG system initialized successfully")) ]))
      end
  end.

Definition LF : jsstring := [10%Z].

(** [createThinkingPrompt(originalPrompt, enableThinking = true)]: an
    argument that is [undefined] takes the default. *)
Definition createThinkingPrompt (originalPrompt : jsstring)
    (enableThinking : JValue) : jsstring :=
  let enableThinking :=
    match enableThinking with
    | JUndef => JBool true
    | flag => flag
    end in
  if negb (truthy enableThinking) then originalPrompt
  else originalPrompt ++ LF ++ LF
       ++ js "Think step by step and show your reasoning process. Format your response as:"
       ++ LF ++ LF ++ js "<think>" ++ LF
       ++ js "[Your detailed thinking process, analysis, and reasoning steps here]"
       ++ LF ++ js "</think>" ++ LF ++ LF
       ++ js "[Your final, clear answer here]".

(** [{ ...parsedResponse, method, <field>, rawResponse }] *)
Definition chat_body (r : ParsedResponse) (method field : jsstring)
    (value : JValue) (rawResponse : jsstring) : JValue :=
  JObj [ (js "thinking", from_option JStr JNull (thinking r));
         (js "response", JStr (response r));
         (js "hasThinking", JBool (hasThinking r));
         (js "method", JStr method);
         (field, value);
         (js "rawResponse", JStr rawResponse) ].

Definition error_body (text : jsstring) : JValue :=
  JObj [ (js "error", JStr text) ].

Definition not_ready (text : jsstring) : Response :=
  {| status := 503;
     body := JObj [ (js "error", JStr text);
                    (js "needsInitialization", JBool true) ] |}.

Definition bad_request (text : jsstring) : Response :=
  {| status := 400; body := error_body text |}.

Definition internal_error (text : jsstring) : Response :=
  {| status := 500; body := error_body (js "Internal server error: " ++ text) |}.

(** [const { name, enableThinking = true } = req.body]: destructuring [null]
    or [undefined] throws a [TypeError]; a missing [enableThinking] takes its
    default. *)
Definition destructure (reqBody : JValue) (name : jsstring)
  : option (JValue * JValue) :=
  match member reqBody name, member reqBody (js "enableThinking") with
  | Some value, Some JUndef => Some (value, JBool true)
  | Some value, Some flag => Some (value, flag)
  | _, _ => None
  end.

(** [POST /api/chat/before-rag]: the response and the effects of the
    request. *)
Definition post_before_rag (w : World) (st : State) (reqBody : JValue)
  : Response * list Event :=
  match destructure reqBody (js "topic") with
  | None => (internal_error (type_error_text w), [])
  | Some (topic, enableThinking) =>
      if negb (truthy topic) then (bad_request (js "Topic is required"), [])
      else if negb (bool_decide (is_Some (chatModel st))) then
        (not_ready (js "Chat model not initialized"), [])
      else
        let promptTemplate :=
          createThinkingPrompt (BEFORE_RAG_PROMPT w) enableThinking in
        let input := JObj [ (js "topic", topic) ] in
        match chain_invoke w promptTemplate input with
        | Return rawResponse =>
            (json (chat_body (parseThinkingResponse rawResponse)
                             (js "before-rag") (js "topic") topic rawResponse),
             [EChain promptTemplate input])
        | Throw message =>
            (internal_error message, [EChain promptTemplate input])
        end
  end.

(** [POST /api/chat/with-rag] *)
Definition post_with_rag (w : World) (st : State) (reqBody : JValue)
  : Response * list Event :=
  match destructure reqBody (js "question") with
  | None => (internal_error (type_error_text w), [])
  | Some (question, enableThinking) =>
      if negb (truthy question) then
        (bad_request (js "Question is required"), [])
      else if negb (bool_decide (is_Some (retriever st)))
              || negb (bool_decide (is_Some (chatModel st))) then
        (not_ready (js "RAG system not initialized"), [])
      else
        let promptTemplate :=
          createThinkingPrompt (RAG_PROMPT w) enableThinking in
        let input := JObj [ (js "question", question) ] in
        match chain_invoke w promptTemplate input with
        | Return rawResponse =>
            (json (chat_body (parseThinkingResponse rawResponse)
                             (js "with-rag") (js "question") question
                             rawResponse),
             [EChain promptTemplate input])
        | Throw message =>
            (internal_error message, [EChain promptTemplate input])
        end
  end.

End Server.

(* ===================================================================== *)
(** ** Vocabulary of the statements                                      *)
(* ===================================================================== *)

Import Thinking Config Neo4j Server.

(** *** Tagged blocks *)

(** [t] is a copy of [pat] up to the case of ASCII letters. *)
Definition eq_ci (pat t : jsstring) : Prop :=
  Forall2 (λ p c, ci_char p c = true) pat t.

(** A case-insensitive copy of [pat] starts at position [k] of [x]. *)
Definition occurs_at (pat : jsstring) (k : nat) (x : jsstring) : Prop :=
  eq_ci pat (take (length pat) (drop k x)).

(** [x] contains an opening tag and, somewhere after it, a closing tag. *)
Definition has_block (x : jsstring) : Prop :=
  ∃ i j, occurs_at OPEN i x ∧ occurs_at CLOSE j (drop (i + length OPEN) x).

(** The block that starts at the leftmost opening tag, position [i], and
    ends at the nearest closing tag, [j] code units after that tag. *)
Definition first_block (x : jsstring) (i j : nat) : Prop :=
  occurs_at OPEN i x ∧ (∀ k, k < i → ¬ occurs_at OPEN k x) ∧
  occurs_at CLOSE j (drop (i + length OPEN) x) ∧
  (∀ k, k < j → ¬ occurs_at CLOSE k (drop (i + length OPEN) x)).

(** The answer field of the parser's result. *)
Definition answer_of (x : jsstring) : jsstring :=
  response (parseThinkingResponse x).

(** *** Configuration sources *)

(** The module-specific section of a parsed file, when there is a truthy
    one. *)
Definition section_of (v : JValue) : option JValue :=
  match member v moduleName with
  | Some section => if truthy section then Some section else None
  | None => None
  end.

(** The value a [config.json] gives to a key: the one of its module-specific
    section when that section has the key, else the top-level one.  A file
    that is missing or does not parse gives none. *)
Definition file_value (f : FileState) (k : jsstring) : option JValue :=
  match f with
  | Parsed v =>
      match section_of v ≫= (λ section, spread section !! k) with
      | Some x => Some x
      | None => spread v !! k
      end
  | Absent | Unreadable => None
  end.

(** The environment source, read literally: the variable that the table
    translates the key to, whenever it is set. *)
Definition env_defines (w : Sources) (k : jsstring) : option jsstring :=
  envKey ← (list_to_map envMapping : gmap jsstring jsstring) !! k;
  environ w !! envKey.

(** The environment source without the variables set to the empty string. *)
Definition env_value (w : Sources) (k : jsstring) : option jsstring :=
  v ← env_defines w k; if bool_decide (v = []) then None else Some v.

(** The local source: the first candidate path that exists and parses. *)
Definition first_parsed (paths : list FileState) : option JValue :=
  head (omap (λ f, match f with Parsed v => Some v | _ => None end) paths).

Definition local_value (w : Sources) (k : jsstring) : option JValue :=
  v ← first_parsed (localConfigPaths w); spread v !! k.

(** The parent source: what the walk contributes on its own. *)
Definition parent_value (w : Sources) (k : jsstring) : option JValue :=
  loadParentConfigs (ancestors w) ∅ !! k.

(** The key is there with a truthy value. *)
Definition usable (cfg : gmap jsstring JValue) (k : jsstring) : Prop :=
  ∃ v, cfg !! k = Some v ∧ truthy v = true.

(** The name contains one of the markers of [sensitive]. *)
Definition has_marker (name : jsstring) : Prop :=
  ∃ s pre post, s ∈ sensitive ∧ name = pre ++ s ++ post.

(** *** Metadata *)

(** Every value of a metadata object satisfies [P]. *)
Definition all_values (P : JValue → Prop) (m : gmap jsstring JValue) : Prop :=
  ∀ k v, m !! k = Some v → P v.

(** A string, a number or a boolean. *)
Definition plain (v : JValue) : Prop :=
  typeof v = TString ∨ typeof v = TNumber ∨ typeof v = TBoolean.

(** What [cleanDocumentMetadata] lets through: a plain value, [null],
    [undefined], or an array that [isPrimitiveType] accepts. *)
Definition storable (v : JValue) : Prop :=
  plain v ∨ v = JNull ∨ v = JUndef
  ∨ ∃ items, v = JArr items ∧ forallb isPrimitiveType items = true.

(** [JSON.stringify] of an object or an array is never the empty text: it
    has at least its pair of brackets. *)
Definition stringify_nonempty (w : World) : Prop :=
  ∀ v text, JSON_stringify w v = Return text → text ≠ [].

(** What the inline cleaning makes of one metadata field: [now] is the
    cleaned object's entry for the key, [before] the entry it had. *)
Definition field_outcome (w : World) (v : JValue)
    (before now : option JValue) : Prop :=
  match typeof v with
  | TString | TNumber | TBoolean => now = Some v
  | TUndefined | TObject =>
      if nullish v then now = before
      else ∃ text, JSON_stringify w v = Return text ∧ now = Some (JStr text)
  end.

(** What [cleanDocumentMetadata] makes of one metadata field: a value that
    [isPrimitiveType] accepts is kept as it is, any other value is replaced
    by its JSON text, or by [String(value)] when [JSON.stringify] throws. *)
Definition util_outcome (stringify : JValue → Completion jsstring)
    (to_text : JValue → jsstring) (v : JValue) (now : option JValue) : Prop :=
  if isPrimitiveType v then now = Some v
  else ∃ text, now = Some (JStr text)
       ∧ (stringify v = Return text
          ∨ (∃ message, stringify v = Throw message) ∧ text = to_text v).

(** The fields that the two cleaning steps set themselves. *)
Definition derived_util : list jsstring :=
  [ js "source"; js "chunk_id"; js "created_at"; js "content_length" ].
Definition derived_inline : list jsstring := [ js "source"; js "id" ].

(** The own properties that [Object.entries(doc.metadata || {})] visits. *)
Definition raw_fields (doc : RawDoc) : gmap jsstring JValue :=
  spread (or_else (metadata doc) (JObj [])).

(** *** Ingestion *)

Definition fetched (w : World) (url : jsstring) : list RawDoc :=
  match loader_load w url with
  | Return loadedDocs => loadedDocs
  | Throw _ => []
  end.

(** The documents of the URLs that load, in the order of the URLs. *)
Definition loaded (w : World) (us : list jsstring) : list RawDoc :=
  flat_map (fetched w) us.

(** What the loop does to the outside for one URL: the fetch, and one error
    line when the fetch fails. *)
Definition load_events (w : World) (url : jsstring) : list Event :=
  ELoad url ::
  match loader_load w url with
  | Return _ => []
  | Throw message => [ELoadError url message]
  end.

Definition load_trace (w : World) (us : list jsstring) : list Event :=
  flat_map (load_events w) us.

Definition add_effects (es : list Event) (st : State) : State :=
  {| vectorstore := vectorstore st; retriever := retriever st;
     chatModel := chatModel st; isInitializing := isInitializing st;
     initializationError := initializationError st;
     effects := effects st ++ es |}.

(** The promise of a run is settled. *)
Definition settled (pc : Pc) : bool :=
  match pc with Done _ => true | _ => false end.

(** What is left of the body once the loop has ended with [docs]. *)
Definition finish (w : World) (docs : list RawDoc) (st : State) : State * Pc :=
  run 2 w (after_loads docs st).

(** The flag is set exactly while a run is suspended at an [await]. *)
Definition flag_tracks_run (c : State * Pc) : Prop :=
  isInitializing c.1 = negb (settled c.2).

Definition already_initialized : Response :=
  json (JObj [ (js "success", JBool true);
               (js "message", JStr (js "RAG system already initialized")) ]).

(** *** Concrete inputs used by the examples below *)

Definition no_files (env : gmap jsstring jsstring) : Sources :=
  {| ancestors := []; static_settings_JSON := Absent;
     configs_config_json := Absent; parent_config_json := Absent;
     environ := env |}.

(** [OLLAMA_HOST= node Server.js]: the variable is set, to the empty string. *)
Definition empty_host_env : Sources := no_files {[ js "OLLAMA_HOST" := [] ]}.

(** [configs/static_settings.JSON] is [{"OLLAMA_HOST": ""}]. *)
Definition empty_host_file : Sources :=
  {| ancestors := [];
     static_settings_JSON := Parsed (JObj [(js "OLLAMA_HOST", JStr [])]);
     configs_config_json := Absent; parent_config_json := Absent;
     environ := ∅ |}.

Definition near_file : FileState :=
  Parsed (JObj [(js "LOG_LEVEL", JStr (js "near"))]).
Definition far_file : FileState :=
  Parsed (JObj [(js "LOG_LEVEL", JStr (js "far"))]).
Definition section_file : FileState :=
  Parsed (JObj [ (js "LOG_LEVEL", JStr (js "top"));
                 (js "karl-chat", JObj [(js "LOG_LEVEL", JStr (js "mid"))]) ]).

(** Six ancestor directories; the nearest and the sixth have a file. *)
Definition six_levels : list FileState :=
  [ near_file; Absent; Absent; Absent; Absent; far_file ].

Definition three_levels : list FileState :=
  [ near_file; Unreadable; section_file; Absent ].

(** Every source defines LOG_LEVEL; the local file is the second candidate,
    the first one does not parse. *)
Definition layered : Sources :=
  {| ancestors := three_levels;
     static_settings_JSON := Unreadable;
     configs_config_json :=
       Parsed (JObj [ (js "LOG_LEVEL", JStr (js "local"));
                      (js "CHUNK_SIZE", JNum 500%float) ]);
     parent_config_json := near_file;
     environ := {[ js "LOG_LEVEL" := js "debug"; js "PORT" := js "8080";
                   js "CHUNK_SIZE" := js "900" ]} |}.

(** Upper-casing of ASCII text. *)
Definition upper_ascii (s : jsstring) : jsstring := canonicalize <$> s.

(** A chunk whose metadata has a list of tags and a [null] note. *)
Definition tagged_doc : RawDoc :=
  {| pageContent := js "text";
     metadata := JObj [ (js "tags", JArr [JStr (js "a")]);
                        (js "note", JNull);
                        (js "loc", JObj [(js "from", JBool true)]) ] |}.

Definition braces (v : JValue) : Completion jsstring := Return (js "{}").
Definition as_text (v : JValue) : jsstring := js "[object Object]".
Definition numbered (n : nat) : jsstring := index_key n.

(** Two URLs: the first one loads one document, every other fetch fails;
    the other collaborators succeed. *)
Definition demo_world : World :=
  {| OLLAMA_HOST := js "localhost"; OLLAMA_PORT := js "11434";
     NEO4J_URI := js "bolt://localhost:7687";
     urls := [js "https://ollama.com"; js "https://ollama.com/blog"];
     BEFORE_RAG_PROMPT := js "What is {topic}?";
     RAG_PROMPT := js "{context} {question}";
     model_invoke := λ _, Return (js "Hi");
     loader_load := λ url,
       if bool_decide (url = js "https://ollama.com")
       then Return [tagged_doc] else Throw (js "fetch failed");
     splitDocuments := λ docs, Return docs;
     fromDocuments := λ _, Return tt;
     chain_invoke := λ _ _, Return (js "<think>A</think>B");
     JSON_stringify := braces;
     fresh_id := numbered;
     type_error_text := js "Cannot destructure" |}.

(** The same, with every fetch failing. *)
Definition offline_world : World :=
  {| OLLAMA_HOST := OLLAMA_HOST demo_world;
     OLLAMA_PORT := OLLAMA_PORT demo_world;
     NEO4J_URI := NEO4J_URI demo_world;
     urls := urls demo_world;
     BEFORE_RAG_PROMPT := BEFORE_RAG_PROMPT demo_world;
     RAG_PROMPT := RAG_PROMPT demo_world;
     model_invoke := model_invoke demo_world;
     loader_load := λ _, Throw (js "fetch failed");
     splitDocuments := splitDocuments demo_world;
     fromDocuments := fromDocuments demo_world;
     chain_invoke := chain_invoke demo_world;
     JSON_stringify := JSON_stringify demo_world;
     fresh_id := fresh_id demo_world;
     type_error_text := type_error_text demo_world |}.

(** The server right after start-up. *)
Definition idle : State :=
  {| vectorstore := None; retriever := None; chatModel := None;
     isInitializing := false; initializationError := None; effects := [] |}.

(** A server on which some run is under way. *)
Definition busy : State :=
  {| vectorstore := None; retriever := None; chatModel := Some ChatOllama;
     isInitializing := true; initializationError := None;
     effects := [EModelInvoke (js "Hello")] |}.

(* ===================================================================== *)
(** ** More of the sources: the other routes, the first server, the      *)
(** ** frontend's word count                                             *)
(* ===================================================================== *)

Module Endpoints.

(** [.] of a regex without the [s] flag: any code unit but LF, CR, U+2028
    and U+2029. *)
Definition isLineTerminator (c : Z) : bool :=
  bool_decide (c ∈ [10; 13; 8232; 8233]%Z).

(** The greedy run of [.] followed by the at-sign: the position of the last
    at-sign within the leading run of code units that are no line
    terminators, if there is one. *)
Fixpoint last_at (s : jsstring) : option nat :=
  match s with
  | [] => None
  | c :: s' =>
      if isLineTerminator c then None
      else match last_at s' with
           | Some j => Some (S j)
           | None => if bool_decide (c = 64%Z) then Some 0 else None
           end
  end.

(** [NEO4J_URI.replace(re, '//***@')] where [re] is two slashes, a greedy
    run of [.] and an at-sign: the leftmost position with two slashes from
    which an at-sign can be reached on the same line is replaced, up to the
    last such at-sign; nothing else changes. *)
Fixpoint hide_credentials (s : jsstring) : jsstring :=
  match s with
  | [] => []
  | c :: s' =>
      if startsWith (js "//") s then
        match last_at (drop 2 s) with
        | Some j => js "//***@" ++ drop (2 + j + 1) s
        | None => c :: hide_credentials s'
        end
      else c :: hide_credentials s'
  end.

(** [config.getConfigSources()] *)
Definition getConfigSources : JValue :=
  JObj [ (js "defaults", JStr (js "Built-in defaults"));
         (js "parent", JStr (js "Parent directory config.json files"));
         (js "local", JStr (js "Local module configs/static_settings.JSON"));
         (js "environment", JStr (js "Environment variables")) ].

(** [GET /api/health].  [timestamp] is [new Date().toISOString()]; the host,
    the port and the model are the values [config.get] returned at start-up,
    the URI is the string on which [replace] is called. *)
Definition get_health (timestamp : jsstring) (host port model : JValue)
    (neo4jUri : jsstring) (st : Server.State) : Server.Response :=
  Server.json
    (JObj [ (js "status", JStr (js "ok"));
            (js "ragInitialized",
             JBool (bool_decide (is_Some (Server.vectorstore st))));
            (js "ollamaConnected",
             JBool (bool_decide (is_Some (Server.chatModel st))));
            (js "isInitializing", JBool (Server.isInitializing st));
            (js "initializationError",
             from_option JStr JNull (Server.initializationError st));
            (js "timestamp", JStr timestamp);
            (js "config",
             JObj [ (js "ollamaHost", host);
                    (js "ollamaPort", port);
                    (js "model", model);
                    (js "neo4jUri", JStr (hide_credentials neo4jUri));
                    (js "configSources", getConfigSources) ]) ]).

End Endpoints.

(** The first server ([backend/server.js] before the configuration system):
    [POST /api/add-urls]. *)
Module FirstServer.

(** The collaborators: the page loader (the items of [urls] are whatever the
    request holds), the splitter and the store's [addDocuments]. *)
Record World := {
  load : JValue → Completion (list Neo4j.RawDoc);
  splitDocuments : list Neo4j.RawDoc → Completion (list Neo4j.RawDoc);
  addDocuments : list Neo4j.RawDoc → Completion unit
}.

Inductive Event :=
  | EFetch (url : JValue)
  | ESplit (docs : list Neo4j.RawDoc)
  | EAdd (docSplits : list Neo4j.RawDoc).

(** The [for (const url of urls)] loop: the documents, the [errors] array
    and the fetches made. *)
Fixpoint load_all (w : World) (urls : list JValue)
    (docs : list Neo4j.RawDoc) (errors : list JValue) (fetches : list Event)
  : list Neo4j.RawDoc * list JValue * list Event :=
  match urls with
  | [] => (docs, errors, fetches)
  | url :: rest =>
      match load w url with
      | Return loadedDocs =>
          load_all w rest (docs ++ loadedDocs) errors (fetches ++ [EFetch url])
      | Throw message =>
          load_all w rest docs
            (errors ++ [JObj [(js "url", url); (js "error", JStr message)]])
            (fetches ++ [EFetch url])
      end
  end.

Definition internal_error : Server.Response :=
  {| Server.status := 500;
     Server.body := Server.error_body (js "Internal server error") |}.

Definition added (docs : list Neo4j.RawDoc) (errors : list JValue)
  : Server.Response :=
  Server.json (JObj [ (js "success", JBool true);
                      (js "documentsAdded", JNum (num_of_nat (length docs)));
                      (js "errors", JArr errors) ]).

(** The handler; [has_store] is [vectorstore] being set. *)
Definition post_add_urls (w : World) (has_store : bool) (reqBody : JValue)
  : Server.Response * list Event :=
  match member reqBody (js "urls") with
  | None => (internal_error, [])
  | Some (JArr urls) =>
      if negb has_store then
        ({| Server.status := 503;
            Server.body := Server.error_body (js "Vector store not initialized") |},
         [])
      else
        let '(docs, errors, fetches) := load_all w urls [] [] [] in
        match docs with
        | [] => (added docs errors, fetches)
        | _ :: _ =>
            match splitDocuments w docs with
            | Throw _ => (internal_error, fetches ++ [ESplit docs])
            | Return docSplits =>
                match addDocuments w docSplits with
                | Throw _ =>
                    (internal_error, fetches ++ [ESplit docs; EAdd docSplits])
                | Return _ =>
                    (added docs errors, fetches ++ [ESplit docs; EAdd docSplits])
                end
            end
        end
  | Some _ =>
      (Server.bad_request (js "URLs array is required"), [])
  end.

End FirstServer.

(** [client/src/components/CollapsibleThinking.js] *)
Module Frontend.

(** [s.split(sep)] for a separator of one code unit. *)
Fixpoint split (sep : Z) (s : jsstring) : list jsstring :=
  match s with
  | [] => [[]]
  | c :: s' =>
      if bool_decide (c = sep) then [] :: split sep s'
      else match split sep s' with
           | piece :: pieces => (c :: piece) :: pieces
           | [] => [[c]]
           end
  end.

(** [thinking ? thinking.split(' ').length : 0]; the prop is the response's
    [thinking] field, a string or [null]. *)
Definition thinkingWordCount (thinking : option jsstring) : nat :=
  match thinking with
  | Some t => if truthy (JStr t) then length (split 32 t) else 0
  | None => 0
  end.

(** The thinking section of what the component renders, with the word count
    and the text it shows.  There is none when the component returns the
    error card, [if (error) return ...], and none when [thinking && (...)]
    renders nothing.  The [error] prop is tested for truthiness only. *)
Definition thinking_section (thinking : option jsstring) (error : JValue)
  : option (nat * jsstring) :=
  let count := thinkingWordCount thinking in
  if truthy error then None
  else match thinking with
       | Some t => if truthy (JStr t) then Some (count, t) else None
       | None => None
       end.

(** Whether the thinking section is rendered. *)
Definition shows_thinking (thinking : option jsstring) (error : JValue)
  : bool :=
  bool_decide (is_Some (thinking_section thinking error)).

End Frontend.

(** *** Vocabulary of the further statements *)

Import Endpoints Frontend.

(** Neither end of the text is white space. *)
Definition no_outer_whitespace (t : jsstring) : Prop :=
  (∀ c, head t = Some c → isWhiteSpace c = false)
  ∧ (∀ c, last t = Some c → isWhiteSpace c = false).

(** The first blank line at or after position [from] of [x] starts [j] code
    units after [from]. *)
Definition first_blank_line (x : jsstring) (from j : nat) : Prop :=
  occurs_at [10; 10]%Z j (drop from x)
  ∧ ∀ k, k < j → ¬ occurs_at [10; 10]%Z k (drop from x).

(** [x] opens with one of the introductory phrases, in any letter case, a
    blank line follows the phrase, and more than 50 code units come before
    the first such blank line. *)
Definition qualifying_intro (x : jsstring) : Prop :=
  ∃ p j, p ∈ thinkingPatterns ∧ occurs_at p 0 x
         ∧ first_blank_line x (length p) j ∧ 50 < length p + j.

(** A file that does not parse, read as a missing file. *)
Definition as_absent (f : FileState) : FileState :=
  match f with
  | Unreadable => Absent
  | _ => f
  end.

Definition sources_as_absent (w : Sources) : Sources :=
  {| ancestors := as_absent <$> ancestors w;
     static_settings_JSON := as_absent (static_settings_JSON w);
     configs_config_json := as_absent (configs_config_json w);
     parent_config_json := as_absent (parent_config_json w);
     environ := environ w |}.

(** The two process environments agree on the variables of the table. *)
Definition same_table_variables (env1 env2 : gmap jsstring jsstring) : Prop :=
  ∀ envKey, envKey ∈ envMapping.*2 → env1 !! envKey = env2 !! envKey.

(** No configuration file, parent or local, defines the key. *)
Definition no_file_defines (w : Sources) (k : jsstring) : Prop :=
  local_value w k = None ∧ parent_value w k = None.

(** The documents of the URLs of a request that load, and the entries of
    its [errors] array. *)
Definition first_loaded (w : FirstServer.World) (urls : list JValue)
  : list RawDoc :=
  flat_map (λ url, match FirstServer.load w url with
                   | Return loadedDocs => loadedDocs
                   | Throw _ => []
                   end) urls.

Definition first_errors (w : FirstServer.World) (urls : list JValue)
  : list JValue :=
  flat_map (λ url, match FirstServer.load w url with
                   | Return _ => []
                   | Throw message =>
                       [JObj [(js "url", url); (js "error", JStr message)]]
                   end) urls.

Definition failing (w : FirstServer.World) (url : JValue) : bool :=
  match FirstServer.load w url with
  | Return _ => false
  | Throw _ => true
  end.

(** The store and the retriever are set together. *)
Definition store_with_retriever (st : State) : Prop :=
  is_Some (vectorstore st) ↔ is_Some (retriever st).

(** The number of spaces (U+0020) of a text. *)
Definition spaces (t : jsstring) : nat :=
  length (List.filter (λ c, bool_decide (c = 32%Z)) t).

(** *** Further concrete inputs *)

(** Ollama does not answer. *)
Definition no_model_world : World :=
  {| OLLAMA_HOST := OLLAMA_HOST demo_world;
     OLLAMA_PORT := OLLAMA_PORT demo_world;
     NEO4J_URI := NEO4J_URI demo_world;
     urls := urls demo_world;
     BEFORE_RAG_PROMPT := BEFORE_RAG_PROMPT demo_world;
     RAG_PROMPT := RAG_PROMPT demo_world;
     model_invoke := λ _, Throw (js "ECONNREFUSED");
     loader_load := loader_load demo_world;
     splitDocuments := splitDocuments demo_world;
     fromDocuments := fromDocuments demo_world;
     chain_invoke := chain_invoke demo_world;
     JSON_stringify := JSON_stringify demo_world;
     fresh_id := fresh_id demo_world;
     type_error_text := type_error_text demo_world |}.

(** A local file that blanks the model name. *)
Definition blank_model_file : Sources :=
  {| ancestors := [Unreadable; near_file];
     static_settings_JSON := Unreadable;
     configs_config_json := Parsed (JObj [(js "DEFAULT_MODEL", JNull)]);
     parent_config_json := Absent;
     environ := {[ js "DEFAULT_MODEL" := js "mistral" ]} |}.

(** [configs/static_settings.JSON] is
    [{"DB_PASSWORD": "hunter2", "apiKey": "k-123", "__proto__": "x"}]. *)
Definition other_secrets_file : Sources :=
  {| ancestors := [];
     static_settings_JSON :=
       Parsed (JObj [ (js "DB_PASSWORD", JStr (js "hunter2"));
                      (js "apiKey", JStr (js "k-123"));
                      (PROTO, JStr (js "x")) ]);
     configs_config_json := Absent; parent_config_json := Absent;
     environ := ∅ |}.

(** The first page loads one document, everything else fails. *)
Definition first_world : FirstServer.World :=
  {| FirstServer.load := λ url,
       match url with
       | JStr u =>
           if bool_decide (u = js "https://ollama.com")
           then Return [tagged_doc] else Throw (js "fetch failed")
       | _ => Throw (js "invalid url")
       end;
     FirstServer.splitDocuments := λ docs, Return docs;
     FirstServer.addDocuments := λ _, Return tt |}.

(** A run that has passed the guard and waits for the model check. *)
Definition started (st : State) : State :=
  emit (EModelInvoke (js "Hello"))
    {| vectorstore := vectorstore st; retriever := retriever st;
       chatModel := Some ChatOllama; isInitializing := true;
       initializationError := None; effects := effects st |}.

(** The two other answers of [POST /api/initialize]. *)
Definition initialized_now : Response :=
  json (JObj [ (js "success", JBool true);
               (js "message", JStr (js "RAG system initialized successfully")) ]).

Definition initialize_failed (message : jsstring) : Response :=
  {| status := 500;
     body := JObj [ (js "success", JBool false);
                    (js "error", JStr message);
                    (js "details",
                     JStr (js "Check server logs for more information")) ] |}.

(** A field of a JSON answer. *)
Definition health_field (r : Response) (name : jsstring) : option JValue :=
  member (body r) name.

(** An answer that opens with an introductory phrase. *)
Definition intro_text : jsstring :=
  js "Let me think about this carefully, considering every option."
  ++ [10; 10]%Z ++ js "Use Ollama.".

(* ===================================================================== *)
(** ** Facts about the string primitives                                 *)
(* ===================================================================== *)

Lemma trimStart_idem s : trimStart (trimStart s) = trimStart s.
Proof.
  induction s as [|c s IH]; simpl; [done|].
  destruct (isWhiteSpace c) eqn:E; [done|]. simpl. by rewrite E.
Qed.

Lemma trimEnd_cons c s :
  trimEnd (c :: s) = match trimEnd s with
                     | [] => if isWhiteSpace c then [] else [c]
                     | t => c :: t
                     end.
Proof. reflexivity. Qed.

Lemma trimEnd_idem s : trimEnd (trimEnd s) = trimEnd s.
Proof.
  induction s as [|c s IH]; [done|].
  rewrite trimEnd_cons.
  destruct (trimEnd s) as [|d t] eqn:E.
  - destruct (isWhiteSpace c) eqn:Ec; [done|]. simpl. by rewrite Ec.
  - rewrite trimEnd_cons, IH. done.
Qed.

(** Trimming the two ends commutes. *)
Lemma trimStart_trimEnd s : trimStart (trimEnd s) = trimEnd (trimStart s).
Proof.
  induction s as [|c s IH]; [done|].
  rewrite trimEnd_cons. simpl trimStart at 2.
  destruct (isWhiteSpace c) eqn:Ec.
  - rewrite <- IH. destruct (trimEnd s) eqn:E; simpl; by rewrite ?Ec.
  - rewrite trimEnd_cons.
    destruct (trimEnd s) eqn:E; simpl; by rewrite Ec.
Qed.

Lemma trim_idem s : trim (trim s) = trim s.
Proof.
  unfold trim.
  by rewrite trimStart_trimEnd, trimEnd_idem, trimStart_idem.
Qed.

Lemma trimStart_length s : length (trimStart s) ≤ length s.
Proof.
  induction s as [|c s IH]; simpl; [done|].
  destruct (isWhiteSpace c); simpl; lia.
Qed.

Lemma trimEnd_length s : length (trimEnd s) ≤ length s.
Proof.
  induction s as [|c s IH]; [done|].
  rewrite trimEnd_cons.
  destruct (trimEnd s); [destruct (isWhiteSpace c)|]; simpl in *; lia.
Qed.

Lemma trim_length s : length (trim s) ≤ length s.
Proof.
  unfold trim. etrans; [apply trimEnd_length | apply trimStart_length].
Qed.

Lemma prefix_ci_occurs pat s :
  prefix_ci pat s = true ↔ eq_ci pat (take (length pat) s).
Proof.
  unfold eq_ci. revert s.
  induction pat as [|p pat IH]; intros s; simpl.
  - split; [constructor | done].
  - destruct s as [|c s]; simpl.
    + split; [done | inversion 1].
    + rewrite andb_true_iff, IH. split.
      * intros [? ?]. by constructor.
      * by inversion 1.
Qed.

Lemma prefix_ci_at pat k s :
  prefix_ci pat (drop k s) = true ↔ occurs_at pat k s.
Proof. apply prefix_ci_occurs. Qed.

(** [search_ci] returns the leftmost occurrence ... *)
Lemma search_ci_Some pat s i :
  search_ci pat s = Some i →
  occurs_at pat i s ∧ ∀ k, k < i → ¬ occurs_at pat k s.
Proof.
  revert i. induction s as [|c s IH]; intros i; simpl.
  - destruct (prefix_ci pat []) eqn:E; [|done].
    intros [= <-]. split; [by apply prefix_ci_at | lia].
  - destruct (prefix_ci pat (c :: s)) eqn:E.
    + intros [= <-]. split; [by apply prefix_ci_at | lia].
    + destruct (search_ci pat s) as [i'|] eqn:Es; [|done].
      simpl. intros [= <-]. destruct (IH i' eq_refl) as [Hocc Hmin].
      split; [exact Hocc|].
      intros [|k] Hk.
      * rewrite <- prefix_ci_at. simpl. by rewrite E.
      * apply Hmin. lia.
Qed.

(** ... and finds one whenever there is one. *)
Lemma search_ci_complete pat s k :
  occurs_at pat k s → ∃ i, search_ci pat s = Some i ∧ i ≤ k.
Proof.
  revert k. induction s as [|c s IH]; intros k Hocc; simpl.
  - apply prefix_ci_at in Hocc. rewrite drop_nil in Hocc.
    rewrite Hocc. exists 0. split; [done | lia].
  - destruct (prefix_ci pat (c :: s)) eqn:E.
    + exists 0. split; [done | lia].
    + destruct k as [|k].
      * apply prefix_ci_at in Hocc. simpl in Hocc. congruence.
      * destruct (IH k Hocc) as (i & -> & Hi). exists (S i).
        split; [done | lia].
Qed.

Lemma occurs_at_drop pat n k x :
  occurs_at pat k (drop n x) ↔ occurs_at pat (n + k) x.
Proof. unfold occurs_at. by rewrite drop_drop. Qed.

Lemma occurs_at_bound pat k x :
  pat ≠ [] → occurs_at pat k x → k + length pat ≤ length x.
Proof.
  unfold occurs_at, eq_ci. intros Hne H. apply Forall2_length in H.
  rewrite length_take, length_drop in H.
  assert (0 < length pat) by (destruct pat; [done | simpl; lia]).
  lia.
Qed.

Lemma startsWith_spec pat s :
  startsWith pat s = true ↔ ∃ post, s = pat ++ post.
Proof.
  revert s. induction pat as [|p pat IH]; intros s; simpl.
  - split; [eauto | done].
  - destruct s as [|c s].
    + split; [done | by intros [? ?]].
    + rewrite andb_true_iff, bool_decide_eq_true, IH. split.
      * intros [-> [post ->]]. eauto.
      * intros [post [= -> ->]]. eauto.
Qed.

Lemma includes_spec s pat :
  includes s pat = true ↔ ∃ pre post, s = pre ++ pat ++ post.
Proof.
  induction s as [|c s IH]; simpl.
  - rewrite orb_false_r, startsWith_spec. split.
    + intros [post ->]. by exists [], post.
    + intros (pre & post & H). symmetry in H.
      apply app_eq_nil in H as [-> H]. apply app_eq_nil in H as [-> ->].
      by exists [].
  - rewrite orb_true_iff, startsWith_spec, IH. split.
    + intros [[post ->] | (pre & post & ->)].
      * by exists [], post.
      * by exists (c :: pre), post.
    + intros ([|d pre] & post & H).
      * left. by exists post.
      * right. injection H as -> ->. by exists pre, post.
Qed.

(* ===================================================================== *)
(** ** [parseThinkingResponse]                                           *)
(* ===================================================================== *)

(** The first block is found whenever some block exists. *)
Lemma match_think_complete x :
  has_block x →
  ∃ i j, search_ci OPEN x = Some i ∧
         search_ci CLOSE (drop (i + length OPEN) x) = Some j.
Proof.
  intros (i0 & j0 & Ho & Hc).
  destruct (search_ci_complete _ _ _ Ho) as (i & Hi & Hle).
  exists i.
  assert (occurs_at CLOSE (i0 - i + j0) (drop (i + length OPEN) x)) as Hc'.
  { apply occurs_at_drop. apply occurs_at_drop in Hc.
    replace (i + length OPEN + (i0 - i + j0)) with (i0 + length OPEN + j0)
      by lia.
    done. }
  destruct (search_ci_complete _ _ _ Hc') as (j & Hj & _).
  by exists j.
Qed.

(** C2: every text that contains a case-insensitive think block is split at
    its first block (leftmost opening tag, nearest closing tag): the text
    between the two tags, trimmed, is the reasoning; the text with the two
    tags and what they enclose cut out, trimmed, is the answer; the flag is
    set.  In particular the text <think>A</think>B gives reasoning A and
    answer B. *)
Theorem parseThinkingResponse_tagged_block :
  (∀ x, has_block x →
     ∃ i j, first_block x i j ∧
       let inner := drop (i + length OPEN) x in
       parseThinkingResponse x =
         {| thinking := Some (trim (take j inner));
            response := trim (take i x ++ drop (j + length CLOSE) inner);
            hasThinking := true |})
  ∧ parseThinkingResponse (js "<think>A</think>B") =
      {| thinking := Some (js "A"); response := js "B"; hasThinking := true |}.
Proof.
  split; [|by vm_compute].
  intros x Hb.
  destruct (match_think_complete x Hb) as (i & j & Hi & Hj).
  exists i, j.
  destruct (search_ci_Some _ _ _ Hi) as [Ho Hmin].
  destruct (search_ci_Some _ _ _ Hj) as [Hc Hminc].
  split; [done|].
  unfold parseThinkingResponse, match_think. rewrite Hi.
  cbn [mbind option_bind]. rewrite Hj. done.
Qed.

(** The general part of C2 at a mixed-case block with surrounding text. *)
Lemma parseThinkingResponse_tagged_block_witness :
  has_block (js "pre <Think> why </THINK> so") ∧
  ∃ i j, first_block (js "pre <Think> why </THINK> so") i j ∧
    let inner := drop (i + length OPEN) (js "pre <Think> why </THINK> so") in
    parseThinkingResponse (js "pre <Think> why </THINK> so") =
      {| thinking := Some (trim (take j inner));
         response := trim (take i (js "pre <Think> why </THINK> so")
                           ++ drop (j + length CLOSE) inner);
         hasThinking := true |}.
Proof.
  assert (has_block (js "pre <Think> why </THINK> so")) as H.
  { exists 4, 5. split; apply prefix_ci_at; vm_compute; reflexivity. }
  split; [exact H|].
  exact (proj1 parseThinkingResponse_tagged_block _ H).
Defined.

Lemma try_patterns_Some ps s r :
  try_patterns ps s = Some r →
  ∃ p m1 m2, match_intro p s = Some (m1, m2) ∧ 50 < length m1 ∧
    r = {| thinking := Some (trim m1); response := trim m2;
           hasThinking := true |}.
Proof.
  induction ps as [|p ps IH]; simpl; [done|].
  destruct (match_intro p s) as [[m1 m2]|] eqn:E; [|exact IH].
  destruct (50 <? length m1) eqn:El; [|exact IH].
  intros [= <-]. exists p, m1, m2. apply Nat.ltb_lt in El. done.
Qed.

Lemma match_intro_Some p s m1 m2 :
  match_intro p s = Some (m1, m2) →
  ∃ n, m1 = take n s ∧ m2 = drop (n + 2) s.
Proof.
  unfold match_intro. destruct (prefix_ci p s); [|done].
  destruct (search_ci _ _) as [j|]; [|done].
  simpl. intros [= <- <-]. by exists (length p + j).
Qed.

Lemma search_ci_first pat s j :
  occurs_at pat j s → (∀ k, k < j → ¬ occurs_at pat k s) →
  search_ci pat s = Some j.
Proof.
  intros Hocc Hmin.
  destruct (search_ci_complete _ _ _ Hocc) as (i & Hi & Hle).
  destruct (search_ci_Some _ _ _ Hi) as [Hocci _].
  destruct (decide (i = j)) as [->|Hne]; [done|].
  exfalso. apply (Hmin i); [lia | done].
Qed.

Lemma match_think_has_block x r : match_think x = Some r → has_block x.
Proof.
  unfold match_think.
  destruct (search_ci OPEN x) as [i|] eqn:Ei; [|done]. cbn [mbind option_bind].
  destruct (search_ci CLOSE _) as [j|] eqn:Ej; [|done]. intros _.
  exists i, j. split.
  - by apply search_ci_Some in Ei as [? _].
  - by apply search_ci_Some in Ej as [? _].
Qed.

Lemma match_think_None x : ¬ has_block x → match_think x = None.
Proof.
  intros Hb. destruct (match_think x) as [r|] eqn:E; [|done].
  exfalso. eauto using match_think_has_block.
Qed.

Lemma no_block_by_search x : search_ci OPEN x = None → ¬ has_block x.
Proof.
  intros Hs (i & j & Ho & _).
  destruct (search_ci_complete _ _ _ Ho) as (k & Hk & _). congruence.
Qed.

Lemma try_patterns_None ps x :
  (∀ p, p ∈ ps → match_intro p x = None) → try_patterns ps x = None.
Proof.
  induction ps as [|p ps IH]; intros H; [done|]. simpl.
  rewrite (H p) by left. apply IH. intros q Hq. apply H. by right.
Qed.

Lemma match_intro_no_prefix p x : ¬ occurs_at p 0 x → match_intro p x = None.
Proof.
  intros H. unfold match_intro.
  destruct (prefix_ci p x) eqn:E; [|done].
  exfalso. apply H. by apply (prefix_ci_at p 0 x).
Qed.

(** At most one introductory phrase opens a text: the three start with
    different letters. *)
Lemma intro_phrase_unique p q x :
  p ∈ thinkingPatterns → q ∈ thinkingPatterns →
  occurs_at p 0 x → occurs_at q 0 x → p = q.
Proof.
  intros Hp Hq Hop Hoq.
  apply prefix_ci_at in Hop. apply prefix_ci_at in Hoq.
  rewrite drop_0 in Hop, Hoq.
  destruct x as [|c x].
  - unfold thinkingPatterns in Hp.
    repeat (apply elem_of_cons in Hp as [->|Hp]; [done|]).
    by apply not_elem_of_nil in Hp.
  - unfold thinkingPatterns in Hp, Hq.
    assert (∀ a b, ci_char a c = true → ci_char b c = true →
                   canonicalize a = canonicalize b) as Hc.
    { unfold ci_char. intros a b Ha Hb. apply Z.eqb_eq in Ha, Hb. congruence. }
    repeat (apply elem_of_cons in Hp as [->|Hp]);
      try (by apply not_elem_of_nil in Hp);
      repeat (apply elem_of_cons in Hq as [->|Hq]);
      try (by apply not_elem_of_nil in Hq); try done;
      simpl in Hop, Hoq;
      apply andb_true_iff in Hop as [Hop _], Hoq as [Hoq _];
      pose proof (Hc _ _ Hop Hoq) as Hcontra; vm_compute in Hcontra;
      discriminate.
Qed.

Lemma try_patterns_unique ps p x m1 m2 :
  p ∈ ps → match_intro p x = Some (m1, m2) →
  (∀ q, q ∈ ps → q ≠ p → match_intro q x = None) →
  try_patterns ps x =
    if 50 <? length m1
    then Some {| thinking := Some (trim m1); response := trim m2;
                 hasThinking := true |}
    else None.
Proof.
  induction ps as [|q ps IH]; intros Hin Hm Hothers.
  - by apply not_elem_of_nil in Hin.
  - simpl. destruct (decide (q = p)) as [->|Hne].
    + rewrite Hm. destruct (50 <? length m1); [done|].
      destruct (decide (p ∈ ps)) as [Hin'|Hnin].
      * rewrite IH; [done | done | done |].
        intros q Hq. apply Hothers. by right.
      * apply try_patterns_None. intros q Hq. apply Hothers; [by right|].
        intros ->. done.
    + rewrite (Hothers q) by (done || left).
      apply elem_of_cons in Hin as [->|Hin]; [done|].
      rewrite IH; [done | done | done |].
      intros r Hr. apply Hothers. by right.
Qed.

Lemma try_patterns_Some_elem ps s r :
  try_patterns ps s = Some r →
  ∃ p m1 m2, p ∈ ps ∧ match_intro p s = Some (m1, m2) ∧ 50 < length m1 ∧
    r = {| thinking := Some (trim m1); response := trim m2;
           hasThinking := true |}.
Proof.
  induction ps as [|p ps IH]; simpl; [done|].
  assert (try_patterns ps s = Some r →
          ∃ q m1 m2, q ∈ p :: ps ∧ match_intro q s = Some (m1, m2)
            ∧ 50 < length m1
            ∧ r = {| thinking := Some (trim m1); response := trim m2;
                     hasThinking := true |}) as Hrest.
  { intros H. destruct (IH H) as (q & m1 & m2 & Hq & Hrest).
    exists q, m1, m2. split; [by right | done]. }
  destruct (match_intro p s) as [[m1 m2]|] eqn:E; [|exact Hrest].
  destruct (50 <? length m1) eqn:El; [|exact Hrest].
  intros [= <-]. exists p, m1, m2. apply Nat.ltb_lt in El.
  split; [left | done].
Qed.

(** Without reasoning the answer is the trimmed text. *)
Lemma parseThinkingResponse_plain s :
  hasThinking (parseThinkingResponse s) = false →
  parseThinkingResponse s =
    {| thinking := None; response := trim s; hasThinking := false |}.
Proof.
  unfold parseThinkingResponse.
  destruct (match_think s) as [[[pre body] post]|]; [done|].
  destruct (try_patterns thinkingPatterns s) as [r|] eqn:E; [|done].
  destruct (try_patterns_Some _ _ _ E) as (p & m1 & m2 & _ & _ & ->). done.
Qed.

(** The answer is trimmed, on every path. *)
Lemma response_trimmed x :
  trim (response (parseThinkingResponse x)) = response (parseThinkingResponse x).
Proof.
  unfold parseThinkingResponse.
  destruct (match_think x) as [[[pre body] post]|]; [apply trim_idem|].
  destruct (try_patterns thinkingPatterns x) as [r|] eqn:E; [|apply trim_idem].
  destruct (try_patterns_Some _ _ _ E) as (p & m1 & m2 & _ & _ & ->).
  apply trim_idem.
Qed.

(** With reasoning the answer is strictly shorter than the text. *)
Lemma parseThinkingResponse_shrinks s :
  hasThinking (parseThinkingResponse s) = true →
  length (response (parseThinkingResponse s)) < length s.
Proof.
  assert (∀ r, try_patterns thinkingPatterns s = Some r →
               length (response r) < length s) as Hintro.
  { intros r E.
    destruct (try_patterns_Some _ _ _ E) as (p & m1 & m2 & Hm & Hl & ->).
    destruct (match_intro_Some _ _ _ _ Hm) as (n & -> & ->).
    cbn [response].
    eapply Nat.le_lt_trans; [apply trim_length|].
    rewrite length_take in Hl. rewrite length_drop. lia. }
  unfold parseThinkingResponse, match_think.
  destruct (search_ci OPEN s) as [i|] eqn:Ei; cbn [mbind option_bind].
  - destruct (search_ci CLOSE _) as [j|] eqn:Ej; cbn [mbind option_bind].
    + intros _. cbn [response].
      apply search_ci_Some in Ei as [Ho _]. apply search_ci_Some in Ej as [Hc _].
      apply occurs_at_bound in Ho; [|done]. apply occurs_at_bound in Hc; [|done].
      rewrite length_drop in Hc.
      eapply Nat.le_lt_trans; [apply trim_length|].
      rewrite length_app, length_take, !length_drop.
      change (length OPEN) with 7 in *. change (length CLOSE) with 8 in *. lia.
    + destruct (try_patterns thinkingPatterns s) as [r|] eqn:E; [|done].
      intros _. by apply Hintro.
  - destruct (try_patterns thinkingPatterns s) as [r|] eqn:E; [|done].
    intros _. by apply Hintro.
Qed.

(** The parser finds no reasoning exactly in a text without think block and
    without qualifying introductory phrase. *)
Lemma hasThinking_false_iff y :
  hasThinking (parseThinkingResponse y) = false
  ↔ ¬ has_block y ∧ ¬ qualifying_intro y.
Proof.
  split.
  - intros Hf. split.
    + intros Hb. destruct (match_think_complete y Hb) as (i & j & Hi & Hj).
      unfold parseThinkingResponse, match_think in Hf.
      rewrite Hi in Hf. cbn [mbind option_bind] in Hf.
      rewrite Hj in Hf. done.
    + intros (p & j & Hp & Hocc & [Hblank Hmin] & Hlen).
      assert (length p + j ≤ length y) as Hbound.
      { apply occurs_at_bound in Hblank; [|done].
        rewrite length_drop in Hblank. simpl in Hblank. lia. }
      assert (match_intro p y =
                Some (take (length p + j) y, drop (length p + j + 2) y)) as Hm.
      { unfold match_intro.
        rewrite (proj2 (prefix_ci_at p 0 y) Hocc : prefix_ci p y = true).
        by rewrite (search_ci_first _ _ _ Hblank Hmin). }
      unfold parseThinkingResponse in Hf.
      destruct (match_think y) as [[[pre body] post]|]; [done|].
      rewrite (try_patterns_unique thinkingPatterns p y _ _ Hp Hm) in Hf.
      * rewrite length_take, Nat.min_l in Hf by lia.
        rewrite (proj2 (Nat.ltb_lt _ _) Hlen) in Hf. done.
      * intros q Hq Hne. apply match_intro_no_prefix. intros Hoq.
        apply Hne. by apply (intro_phrase_unique q p y).
  - intros [Hb Hq]. unfold parseThinkingResponse.
    rewrite (match_think_None y Hb).
    destruct (try_patterns thinkingPatterns y) as [r|] eqn:E; [|done].
    exfalso. apply Hq.
    destruct (try_patterns_Some_elem _ _ _ E) as (p & m1 & m2 & Hp & Hm & Hl & _).
    unfold match_intro in Hm.
    destruct (prefix_ci p y) eqn:Epre; [|done].
    destruct (search_ci _ _) as [j|] eqn:Ej; [|done].
    cbn [mbind option_bind] in Hm. injection Hm as <- <-.
    apply search_ci_Some in Ej as [Hblank Hmin].
    exists p, j. split; [done|]. split; [by apply (prefix_ci_at p 0 y)|].
    split; [by split|].
    rewrite length_take in Hl. lia.
Qed.

(** C3, as the code has it: parsing the answer again gives the same answer
    exactly when that second parse finds no reasoning in it, that is when
    the answer holds no further think block and no qualifying introductory
    phrase; otherwise the second answer is strictly shorter than the
    first. *)
Theorem parseThinkingResponse_answer_fixpoint (x : jsstring) :
  (answer_of (answer_of x) = answer_of x
   ↔ hasThinking (parseThinkingResponse (answer_of x)) = false)
  ∧ (hasThinking (parseThinkingResponse (answer_of x)) = false
     ↔ ¬ has_block (answer_of x) ∧ ¬ qualifying_intro (answer_of x))
  ∧ (answer_of (answer_of x) ≠ answer_of x →
     length (answer_of (answer_of x)) < length (answer_of x)).
Proof.
  assert (answer_of (answer_of x) = answer_of x
          ↔ hasThinking (parseThinkingResponse (answer_of x)) = false) as Hiff.
  { unfold answer_of. split.
    - intros Heq.
      destruct (hasThinking (parseThinkingResponse
                  (response (parseThinkingResponse x)))) eqn:E; [|done].
      apply parseThinkingResponse_shrinks in E. rewrite Heq in E. lia.
    - intros E. rewrite (parseThinkingResponse_plain _ E). cbn [response].
      apply response_trimmed. }
  split; [exact Hiff|]. split; [apply hasThinking_false_iff|].
  intros Hne. apply (parseThinkingResponse_shrinks (answer_of x)).
  destruct (hasThinking (parseThinkingResponse (answer_of x))) eqn:E; [done|].
  exfalso. apply Hne. by apply Hiff.
Qed.

(** An answer that is a fixed point, and one that is not. *)
Lemma parseThinkingResponse_answer_fixpoint_witness :
  hasThinking (parseThinkingResponse (answer_of (js "<think>A</think>B")))
  = false
  ∧ answer_of (answer_of (js "<think>A</think>B"))
    = answer_of (js "<think>A</think>B")
  ∧ length (answer_of (answer_of (js "<think>a</think><think>b</think>c")))
    < length (answer_of (js "<think>a</think><think>b</think>c")).
Proof.
  assert (hasThinking (parseThinkingResponse
            (answer_of (js "<think>A</think>B"))) = false) as H
    by (vm_compute; reflexivity).
  split; [exact H|]. split.
  - exact (proj2 (proj1 (parseThinkingResponse_answer_fixpoint _)) H).
  - apply (proj2 (proj2 (parseThinkingResponse_answer_fixpoint _))).
    vm_compute. discriminate.
Defined.

(** C3 as stated fails: only the first block is cut out, so an answer that
    still holds a block is cut again by the second parse. *)
Lemma parseThinkingResponse_not_idempotent :
  answer_of (js "<think>a</think><think>b</think>c") = js "<think>b</think>c"
  ∧ answer_of (answer_of (js "<think>a</think><think>b</think>c")) = js "c"
  ∧ answer_of (answer_of (js "<think>a</think><think>b</think>c"))
    ≠ answer_of (js "<think>a</think><think>b</think>c").
Proof. split; [|split]; by vm_compute. Qed.

(* ===================================================================== *)
(** ** [ConfigLoader]                                                    *)
(* ===================================================================== *)

(** Object spread: the right operand wins. *)
Lemma lookup_over (m1 m2 : gmap jsstring JValue) k :
  (m1 ∪ m2) !! k = match m1 !! k with Some x => Some x | None => m2 !! k end.
Proof. rewrite lookup_union. destruct (m1 !! k), (m2 !! k); done. Qed.

Lemma merge_parent_lookup cfg v k :
  merge_parent cfg v !! k =
    match file_value (Parsed v) k with Some x => Some x | None => cfg !! k end.
Proof.
  unfold merge_parent, file_value, section_of.
  destruct (member v moduleName) as [section|]; simpl.
  - destruct (truthy section); simpl; rewrite !lookup_over; [|done].
    by destruct (spread section !! k).
  - by rewrite lookup_over.
Qed.

Lemma visit_lookup cfg f k :
  visit cfg f !! k =
    match file_value f k with Some x => Some x | None => cfg !! k end.
Proof. destruct f; simpl; [done | done | apply merge_parent_lookup]. Qed.

Lemma walk_cons n f dirs cfg :
  walk (S n) (f :: dirs) cfg = walk n dirs (visit cfg f).
Proof. reflexivity. Qed.

(** Levels that do not define the key leave it alone. *)
Lemma walk_none n dirs cfg k :
  (∀ j f, j < n → dirs !! j = Some f → file_value f k = None) →
  walk n dirs cfg !! k = cfg !! k.
Proof.
  revert dirs cfg. induction n as [|n IH]; intros dirs cfg Hnone; [done|].
  destruct dirs as [|f dirs]; [done|].
  rewrite walk_cons, IH.
  - rewrite visit_lookup, (Hnone 0 f); [done | lia | done].
  - intros j g Hj Hg. apply (Hnone (S j) g); [lia | done].
Qed.

Lemma walk_farthest n dirs cfg k i f x :
  i < n → dirs !! i = Some f → file_value f k = Some x →
  (∀ j g, i < j < n → dirs !! j = Some g → file_value g k = None) →
  walk n dirs cfg !! k = Some x.
Proof.
  revert dirs cfg i. induction n as [|n IH]; intros dirs cfg i Hi Hf Hx Hlater;
    [lia|].
  destruct dirs as [|f0 dirs]; [done|].
  rewrite walk_cons. destruct i as [|i].
  - simpl in Hf. injection Hf as ->.
    rewrite walk_none.
    + by rewrite visit_lookup, Hx.
    + intros j g Hj Hg. apply (Hlater (S j) g); [lia | done].
  - apply (IH dirs _ i); [lia | done | done |].
    intros j g Hj Hg. apply (Hlater (S j) g); [lia | done].
Qed.

(** The walk lays its own contribution over the configuration it starts
    from. *)
Lemma walk_layer n dirs cfg k :
  walk n dirs cfg !! k =
    match walk n dirs ∅ !! k with Some x => Some x | None => cfg !! k end.
Proof.
  revert dirs cfg. induction n as [|n IH]; intros dirs cfg.
  - simpl. by rewrite lookup_empty.
  - destruct dirs as [|f dirs]; [simpl; by rewrite lookup_empty|].
    rewrite !walk_cons, (IH dirs (visit cfg f)), (IH dirs (visit ∅ f)).
    destruct (walk n dirs ∅ !! k); [done|].
    rewrite !visit_lookup, lookup_empty. by destruct (file_value f k).
Qed.

(** C9, as the code has it: among the ancestor directories that the walk
    visits (the [maxLevels] = 5 nearest ones, fewer when the root comes
    first), the farthest one whose [config.json] parses and defines the key
    gives the value that [loadParentConfigs] resolves. *)
Theorem loadParentConfigs_farthest_visited
    (dirs : list FileState) (cfg : gmap jsstring JValue) (k : jsstring)
    (i : nat) (f : FileState) (x : JValue) :
  i < maxLevels → dirs !! i = Some f → file_value f k = Some x →
  (∀ j g, i < j < maxLevels → dirs !! j = Some g → file_value g k = None) →
  loadParentConfigs dirs cfg !! k = Some x.
Proof. apply walk_farthest. Qed.

Lemma loadParentConfigs_farthest_visited_witness :
  loadParentConfigs three_levels getDefaults !! js "LOG_LEVEL"
  = Some (JStr (js "mid")).
Proof.
  apply (loadParentConfigs_farthest_visited _ _ _ 2 section_file).
  - unfold maxLevels. lia.
  - reflexivity.
  - vm_compute. reflexivity.
  - intros j g Hj Hg. unfold maxLevels in Hj.
    destruct j as [|[|[|[|[|j]]]]]; try lia; simpl in Hg;
      try discriminate; injection Hg as <-; reflexivity.
Defined.

(** C9 as stated fails beyond the fifth level: with six ancestors of which
    the nearest and the sixth define the key, the sixth is the farthest one,
    and the resolved value is the nearest one's. *)
Lemma loadParentConfigs_beyond_maxLevels :
  six_levels !! 0 = Some near_file
  ∧ six_levels !! 5 = Some far_file
  ∧ file_value near_file (js "LOG_LEVEL") = Some (JStr (js "near"))
  ∧ file_value far_file (js "LOG_LEVEL") = Some (JStr (js "far"))
  ∧ length six_levels = 6
  ∧ loadParentConfigs six_levels getDefaults !! js "LOG_LEVEL"
    = Some (JStr (js "near"))
  ∧ loadParentConfigs six_levels getDefaults !! js "LOG_LEVEL"
    ≠ Some (JStr (js "far")).
Proof. repeat split; by vm_compute. Qed.

Lemma loadLocalConfig_lookup paths cfg k :
  loadLocalConfig paths cfg !! k =
    match first_parsed paths ≫= (λ v, spread v !! k) with
    | Some x => Some x
    | None => cfg !! k
    end.
Proof.
  unfold first_parsed.
  induction paths as [|[| |v] paths IH]; simpl; [done | exact IH | exact IH |].
  by rewrite lookup_over.
Qed.

Lemma env_fold_lookup env (table : list (jsstring * jsstring)) cfg k :
  NoDup table.*1 →
  foldl (env_step env) cfg table !! k =
    match (envKey ← (list_to_map table : gmap jsstring jsstring) !! k;
           v ← env !! envKey;
           if bool_decide (v = []) then None else Some v) with
    | Some v => Some (JStr v)
    | None => cfg !! k
    end.
Proof.
  revert cfg. induction table as [|[ck ek] table IH]; intros cfg Hnd.
  - simpl. by rewrite lookup_empty.
  - apply NoDup_cons in Hnd as [Hck Hnd]. cbn [foldl].
    rewrite (IH _ Hnd). cbn [list_to_map foldr uncurry fst snd].
    destruct (decide (ck = k)) as [->|Hne].
    + rewrite lookup_insert_eq.
      rewrite (not_elem_of_list_to_map_1 _ _ Hck). simpl.
      unfold env_step, getenv.
      destruct (env !! ek) as [v|]; simpl; [|done].
      destruct (bool_decide (v = [])); simpl; [done|].
      by rewrite lookup_insert_eq.
    + rewrite (lookup_insert_ne _ ck k) by done.
      destruct (_ ≫= _) as [v|]; [done|].
      unfold env_step. destruct (truthy _); [|done].
      by rewrite lookup_insert_ne.
Qed.

Lemma envMapping_NoDup : NoDup envMapping.*1.
Proof. apply (bool_decide_unpack _). by vm_compute. Qed.

(** C1, as the code has it: the resolved value of a key is the one of the
    highest source that defines it, in the order environment variable (set
    to a non-empty string, through the translation table), first local file
    that parses, parent-directory files, built-in defaults. *)
Theorem loadConfig_precedence (w : Sources) (k : jsstring) :
  loadConfig w !! k =
    match env_value w k with
    | Some v => Some (JStr v)
    | None =>
        match local_value w k with
        | Some v => Some v
        | None =>
            match parent_value w k with
            | Some v => Some v
            | None => getDefaults !! k
            end
        end
    end.
Proof.
  unfold loadConfig, loadEnvironmentConfig.
  rewrite (env_fold_lookup _ _ _ _ envMapping_NoDup).
  unfold env_value, env_defines, local_value, parent_value.
  replace (envKey ← (list_to_map envMapping : gmap jsstring jsstring) !! k;
           v ← environ w !! envKey;
           if bool_decide (v = []) then None else Some v)
    with ((envKey ← (list_to_map envMapping : gmap jsstring jsstring) !! k;
           environ w !! envKey) ≫=
          (λ v : jsstring, if bool_decide (v = []) then None else Some v)).
  2:{ by destruct (_ !! k). }
  destruct (_ ≫= _) as [v|]; [done|].
  rewrite loadLocalConfig_lookup.
  destruct (_ ≫= _) as [v|]; [done|].
  unfold loadParentConfigs. apply walk_layer.
Qed.

(** The four layers at work: the environment wins for LOG_LEVEL and, through
    the translation PORT to SERVER_PORT, for the port; CHUNK_SIZE is not in
    the table, so the local file's number stays. *)
Example loadConfig_layered :
  loadConfig layered !! js "LOG_LEVEL" = Some (JStr (js "debug"))
  ∧ loadConfig layered !! js "SERVER_PORT" = Some (JStr (js "8080"))
  ∧ loadConfig layered !! js "CHUNK_SIZE" = Some (JNum 500%float)
  ∧ loadConfig layered !! js "OLLAMA_HOST" = Some (JStr (js "localhost"))
  ∧ loadLocalConfig (localConfigPaths layered)
      (loadParentConfigs (ancestors layered) getDefaults) !! js "LOG_LEVEL"
    = Some (JStr (js "local"))
  ∧ loadParentConfigs (ancestors layered) getDefaults !! js "LOG_LEVEL"
    = Some (JStr (js "mid")).
Proof. repeat split; by vm_compute. Qed.

(** C1 as stated fails for a variable that is set to the empty string: the
    environment defines the key, and the default stays. *)
Lemma loadConfig_empty_env_variable :
  env_defines empty_host_env (js "OLLAMA_HOST") = Some []
  ∧ getDefaults !! js "OLLAMA_HOST" = Some (JStr (js "localhost"))
  ∧ loadConfig empty_host_env !! js "OLLAMA_HOST"
    = Some (JStr (js "localhost"))
  ∧ loadConfig empty_host_env !! js "OLLAMA_HOST" ≠ Some (JStr []).
Proof. repeat split; by vm_compute. Qed.

Lemma usable_truthy cfg k : usable cfg k ↔ truthy (read (cfg !! k)) = true.
Proof.
  unfold usable, read. split.
  - by intros (v & -> & Hv).
  - destruct (cfg !! k) as [v|]; simpl; [eauto | done].
Qed.

(** C4, as the code has it: [validate()] returns [true] when each of
    OLLAMA_HOST, OLLAMA_PORT and DEFAULT_MODEL is there with a truthy value;
    otherwise it throws, and the message names exactly the required keys
    that are absent or have a falsy value (empty string, zero, NaN, false,
    null). *)
Theorem validate_iff_unusable (cfg : gmap jsstring JValue) :
  (validate cfg = Return true ∧ Forall (usable cfg) required)
  ∨ ∃ keys, keys ≠ []
      ∧ validate cfg =
          Throw (js "Missing required configuration: " ++ join (js ", ") keys)
      ∧ ∀ k, k ∈ keys ↔ k ∈ required ∧ ¬ usable cfg k.
Proof.
  unfold validate.
  assert (∀ k, k ∈ missing cfg ↔ k ∈ required ∧ ¬ usable cfg k) as Hmiss.
  { intros k. unfold missing.
    rewrite list_elem_of_In, filter_In, <- list_elem_of_In.
    rewrite usable_truthy, negb_true_iff, not_true_iff_false. done. }
  destruct (missing cfg) as [|key keys] eqn:E.
  - left. split; [done|]. apply Forall_forall. intros k Hk.
    destruct (decide (truthy (read (cfg !! k)) = true)) as [Ht|Hf].
    + by apply usable_truthy.
    + exfalso. eapply not_elem_of_nil, Hmiss. split; [done|].
      by rewrite usable_truthy.
  - right. exists (key :: keys). done.
Qed.

(** C4 as stated fails for a key that is present with a falsy value: all
    three required keys are in the merged map, and [validate()] throws. *)
Lemma validate_present_but_empty :
  Forall (λ k, is_Some (loadConfig empty_host_file !! k)) required
  ∧ validate (loadConfig empty_host_file)
    = Throw (js "Missing required configuration: OLLAMA_HOST").
Proof.
  split; [|by vm_compute].
  unfold required.
  repeat first [apply Forall_nil_2 | apply Forall_cons_2; [vm_compute; eauto|]].
Qed.

Lemma isSensitive_spec toUpperCase key :
  isSensitive toUpperCase key = true ↔ has_marker (toUpperCase key).
Proof.
  unfold isSensitive, has_marker. rewrite existsb_exists. split.
  - intros (s & Hin & Hinc). apply includes_spec in Hinc as (pre & post & ->).
    exists s, pre, post. by rewrite list_elem_of_In.
  - intros (s & pre & post & Hin & Heq). exists s.
    rewrite <- list_elem_of_In. split; [done|].
    apply includes_spec. eauto.
Qed.

Lemma assign_lookup_ne o key value k :
  k ≠ PROTO → assign o key value !! k = <[key := value]> o !! k.
Proof.
  intros Hk. unfold assign. case_bool_decide as Hkey; [|done].
  subst key. by rewrite lookup_insert_ne.
Qed.

Lemma assign_lookup_proto o key value :
  assign o key value !! PROTO = o !! PROTO.
Proof.
  unfold assign. case_bool_decide as Hkey; [done|].
  by rewrite lookup_insert_ne.
Qed.

Lemma safe_step_lookup_ne toUpperCase acc entry k :
  k ≠ PROTO →
  safe_step toUpperCase acc entry !! k =
    <[entry.1 := if isSensitive toUpperCase entry.1 then JStr (js "***")
                 else entry.2]> acc !! k.
Proof.
  intros Hk. destruct entry as [key value]. unfold safe_step. cbn [fst snd].
  destruct (isSensitive toUpperCase key); by rewrite assign_lookup_ne.
Qed.

Lemma safe_fold_lookup toUpperCase (entries : list (jsstring * JValue)) acc k :
  NoDup entries.*1 → k ≠ PROTO →
  foldl (safe_step toUpperCase) acc entries !! k =
    match (list_to_map entries : gmap jsstring JValue) !! k with
    | Some v => Some (if isSensitive toUpperCase k then JStr (js "***") else v)
    | None => acc !! k
    end.
Proof.
  revert acc. induction entries as [|[key value] entries IH]; intros acc Hnd Hk.
  - simpl. by rewrite lookup_empty.
  - apply NoDup_cons in Hnd as [Hkey Hnd]. cbn [foldl].
    rewrite (IH _ Hnd Hk). cbn [list_to_map foldr uncurry fst snd].
    rewrite (safe_step_lookup_ne _ _ _ _ Hk). cbn [fst snd].
    destruct (decide (key = k)) as [->|Hne].
    + rewrite !lookup_insert_eq. by rewrite (not_elem_of_list_to_map_1 _ _ Hkey).
    + rewrite !(lookup_insert_ne _ key k) by done.
      by destruct (_ !! k).
Qed.

Lemma safe_fold_proto toUpperCase (entries : list (jsstring * JValue)) acc :
  foldl (safe_step toUpperCase) acc entries !! PROTO = acc !! PROTO.
Proof.
  revert acc. induction entries as [|[key value] entries IH]; intros acc;
    [done|].
  cbn [foldl]. rewrite IH. unfold safe_step.
  destruct (isSensitive toUpperCase key); apply assign_lookup_proto.
Qed.

Lemma getSafeConfig_lookup toUpperCase cfg k :
  getSafeConfig toUpperCase cfg !! k =
    if bool_decide (k = PROTO) then None
    else (λ v, if isSensitive toUpperCase k then JStr (js "***") else v)
           <$> cfg !! k.
Proof.
  unfold getSafeConfig. case_bool_decide as Hk.
  - subst k. by rewrite safe_fold_proto, lookup_empty.
  - rewrite safe_fold_lookup by (apply NoDup_fst_map_to_list || done).
    rewrite list_to_map_to_list, lookup_empty. by destruct (cfg !! k).
Qed.

(** C5, as the code has it.  [getSafeConfig()] has the keys of the merged
    map other than [__proto__], which the assignment never creates.  The
    value of a key whose upper-cased name contains one of the three markers
    of the code, NEO4J_PASSWORD, API_KEY or SECRET, is the mask [***]; every
    other value is unchanged. *)
Theorem getSafeConfig_masks (toUpperCase : jsstring → jsstring)
    (cfg : gmap jsstring JValue) :
  dom (getSafeConfig toUpperCase cfg) = dom cfg ∖ {[ PROTO ]}
  ∧ ∀ k v, cfg !! k = Some v → k ≠ PROTO →
      (has_marker (toUpperCase k) →
         getSafeConfig toUpperCase cfg !! k = Some (JStr (js "***")))
      ∧ (¬ has_marker (toUpperCase k) →
         getSafeConfig toUpperCase cfg !! k = Some v).
Proof.
  split.
  - apply set_eq. intros k.
    rewrite elem_of_difference, !elem_of_dom, getSafeConfig_lookup.
    rewrite elem_of_singleton. case_bool_decide as Hk.
    + split; [by intros [? ?] | by intros [_ ?]].
    + rewrite fmap_is_Some. split; [done | by intros [? _]].
  - intros k v Hk Hne. rewrite getSafeConfig_lookup, Hk.
    rewrite bool_decide_eq_false_2 by done. simpl.
    split; intros H.
    + apply isSensitive_spec in H. by rewrite H.
    + destruct (isSensitive toUpperCase k) eqn:E; [|done].
      by apply isSensitive_spec in E.
Qed.

Lemma getSafeConfig_masks_witness :
  getSafeConfig upper_ascii getDefaults !! js "NEO4J_PASSWORD"
  = Some (JStr (js "***"))
  ∧ getSafeConfig upper_ascii getDefaults !! js "NEO4J_USERNAME"
    = Some (JStr (js "neo4j")).
Proof.
  split.
  - refine (proj1 (proj2 (getSafeConfig_masks upper_ascii getDefaults)
                     (js "NEO4J_PASSWORD") (JStr (js "password")) _ _) _).
    + vm_compute. reflexivity.
    + discriminate.
    + apply isSensitive_spec. vm_compute. reflexivity.
  - refine (proj2 (proj2 (getSafeConfig_masks upper_ascii getDefaults)
                     (js "NEO4J_USERNAME") (JStr (js "neo4j")) _ _) _).
    + vm_compute. reflexivity.
    + discriminate.
    + intros H. apply isSensitive_spec in H. vm_compute in H. discriminate.
Defined.

(** The claim as worded fails on a configuration that a local file can
    give.  The names DB_PASSWORD and apiKey hold a password and an api-key
    marker, and their values come back in clear: the password marker of the
    code is the full name NEO4J_PASSWORD and the api-key marker has an
    underscore.  And the safe view lacks the key [__proto__] of the merged
    map. *)
Lemma getSafeConfig_shows_other_passwords :
  includes (upper_ascii (js "DB_PASSWORD")) (js "PASSWORD") = true
  ∧ loadConfig other_secrets_file !! js "DB_PASSWORD"
    = Some (JStr (js "hunter2"))
  ∧ getSafeConfig upper_ascii (loadConfig other_secrets_file)
      !! js "DB_PASSWORD" = Some (JStr (js "hunter2"))
  ∧ getSafeConfig upper_ascii (loadConfig other_secrets_file) !! js "apiKey"
    = Some (JStr (js "k-123"))
  ∧ loadConfig other_secrets_file !! PROTO = Some (JStr (js "x"))
  ∧ getSafeConfig upper_ascii (loadConfig other_secrets_file) !! PROTO = None.
Proof. repeat split; vm_compute; reflexivity. Qed.

(* ===================================================================== *)
(** ** Metadata cleaning                                                 *)
(* ===================================================================== *)

Lemma all_values_insert P m k v :
  P v → all_values P m → all_values P (<[k := v]> m).
Proof.
  intros Hv Hm k' v'. rewrite lookup_insert.
  case_decide; [by intros [= <-] | apply Hm].
Qed.

Lemma all_values_assign P m k v :
  P v → all_values P m → all_values P (assign m k v).
Proof.
  intros Hv Hm. unfold assign. case_bool_decide; [done|].
  by apply all_values_insert.
Qed.

Lemma assign_lookup_other o key value k :
  key ≠ k → assign o key value !! k = o !! k.
Proof.
  intros Hne. unfold assign. case_bool_decide; [done|].
  by rewrite lookup_insert_ne.
Qed.

Lemma all_values_empty P : all_values P ∅.
Proof. intros k v. by rewrite lookup_empty. Qed.

Lemma isPrimitiveType_storable v : isPrimitiveType v = true ↔ storable v.
Proof.
  unfold storable, plain. split.
  - destruct v as [| |b|x|s|items|members]; simpl; intros H; try done.
    + by right; right; left.
    + by right; left.
    + by left; right; right.
    + by left; right; left.
    + by left; left.
    + right; right; right. by exists items.
  - intros [[H|[H|H]]|[->|[->|(items & -> & H)]]]; try done;
      by destruct v.
Qed.

Lemma storable_text s : storable (JStr s).
Proof. left. unfold plain. simpl. auto. Qed.

Section util.
Variable stringify : JValue → Completion jsstring.
Variable to_text : JValue → jsstring.
Variable chunk_id_text : nat → jsstring.
Variable iso_now : nat → jsstring.

Lemma clean_entry_storable m entry :
  all_values storable m →
  all_values storable (clean_entry stringify to_text m entry).
Proof.
  intros Hm. destruct entry as [key value]. unfold clean_entry.
  destruct (isPrimitiveType value) eqn:E.
  - apply all_values_assign; [by apply isPrimitiveType_storable | done].
  - destruct (negb (nullish value)); [|done].
    destruct (stringify value);
      (apply all_values_assign; [apply storable_text | done]).
Qed.

Lemma clean_fold_storable entries m :
  all_values storable m →
  all_values storable (foldl (clean_entry stringify to_text) m entries).
Proof.
  revert m. induction entries as [|e entries IH]; intros m Hm; [done|].
  simpl. apply IH. by apply clean_entry_storable.
Qed.

Lemma clean_entry_other acc key value k :
  key ≠ k → clean_entry stringify to_text acc (key, value) !! k = acc !! k.
Proof.
  intros Hne. unfold clean_entry. destruct (isPrimitiveType value);
    [by apply assign_lookup_other|].
  destruct (negb (nullish value)); [|done].
  destruct (stringify value); by apply assign_lookup_other.
Qed.

Lemma clean_fold_proto entries acc :
  foldl (clean_entry stringify to_text) acc entries !! PROTO = acc !! PROTO.
Proof.
  revert acc. induction entries as [|[key value] entries IH]; intros acc;
    [done|].
  cbn [foldl]. rewrite IH. unfold clean_entry.
  destruct (isPrimitiveType value); [apply assign_lookup_proto|].
  destruct (negb (nullish value)); [|done].
  destruct (stringify value); apply assign_lookup_proto.
Qed.

Lemma clean_fold_lookup entries acc k :
  NoDup entries.*1 → k ≠ PROTO →
  match (list_to_map entries : gmap jsstring JValue) !! k with
  | Some v =>
      util_outcome stringify to_text v
        (foldl (clean_entry stringify to_text) acc entries !! k)
  | None => foldl (clean_entry stringify to_text) acc entries !! k = acc !! k
  end.
Proof.
  revert acc. induction entries as [|[key value] entries IH];
    intros acc Hnd Hk.
  - simpl. by rewrite lookup_empty.
  - apply NoDup_cons in Hnd as [Hkey Hnd].
    cbn [list_to_map foldr uncurry fst snd foldl].
    specialize (IH (clean_entry stringify to_text acc (key, value)) Hnd Hk).
    destruct (decide (key = k)) as [->|Hne].
    + rewrite lookup_insert_eq.
      rewrite (not_elem_of_list_to_map_1 _ _ Hkey) in IH. rewrite IH.
      unfold util_outcome, clean_entry.
      destruct (isPrimitiveType value) eqn:E;
        [by rewrite assign_lookup_ne, lookup_insert_eq|].
      assert (nullish value = false) as -> by (by destruct value).
      cbn [negb].
      destruct (stringify value) as [text|message] eqn:Es;
        rewrite assign_lookup_ne, lookup_insert_eq by done; eauto 6.
    + rewrite (lookup_insert_ne _ key k) by done.
      by rewrite (clean_entry_other _ _ _ _ Hne) in IH.
Qed.

Lemma storable_or_else m k v :
  all_values storable m → storable v → storable (or_else (read (m !! k)) v).
Proof.
  intros Hm Hv. unfold or_else, read.
  destruct (m !! k) as [x|] eqn:E; simpl; [|done].
  destruct (truthy x); [by apply (Hm k) | done].
Qed.

Lemma clean_document_storable index doc :
  all_values storable
    (metadata (Neo4j.clean_document stringify to_text chunk_id_text iso_now
                 index doc)).
Proof.
  unfold Neo4j.clean_document. cbn [metadata].
  set (m0 := foldl _ ∅ _).
  assert (all_values storable m0) as H0
    by apply clean_fold_storable, all_values_empty.
  apply all_values_insert; [left; unfold plain; simpl; auto|].
  apply all_values_insert; [apply storable_text|].
  set (m1 := <[js "source" := _]> m0).
  assert (all_values storable m1) as H1.
  { apply all_values_insert; [|done].
    apply storable_or_else; [done | apply storable_text]. }
  apply all_values_insert; [|done].
  apply storable_or_else; [done | apply storable_text].
Qed.

Lemma clean_document_field index doc k v :
  raw_fields doc !! k = Some v → k ∉ derived_util → k ≠ PROTO →
  util_outcome stringify to_text v
    (metadata (Neo4j.clean_document stringify to_text chunk_id_text iso_now
                 index doc) !! k).
Proof.
  intros Hraw Hk Hp. unfold Neo4j.clean_document. cbn [metadata].
  unfold derived_util in Hk.
  rewrite !lookup_insert_ne by set_solver.
  pose proof (clean_fold_lookup (map_to_list (raw_fields doc)) ∅ k
                (NoDup_fst_map_to_list _) Hp) as H.
  by rewrite list_to_map_to_list, Hraw in H.
Qed.

Lemma clean_document_proto index doc :
  metadata (Neo4j.clean_document stringify to_text chunk_id_text iso_now
              index doc) !! PROTO = None.
Proof.
  unfold Neo4j.clean_document. cbn [metadata].
  rewrite !lookup_insert_ne by done.
  by rewrite clean_fold_proto, lookup_empty.
Qed.
End util.

Lemma cleanDocumentMetadata_storable stringify to_text chunk_id_text iso_now
    documents d :
  d ∈ cleanDocumentMetadata stringify to_text chunk_id_text iso_now documents →
  all_values storable (metadata d).
Proof.
  unfold cleanDocumentMetadata. intros Hd.
  apply list_elem_of_lookup in Hd as [i Hi].
  rewrite list_lookup_imap in Hi.
  destruct (documents !! i) as [doc|]; [|done].
  injection Hi as <-. apply clean_document_storable.
Qed.

Lemma cleaned_fold_throw w message entries :
  foldl (cleaned_entry w) (Throw message) entries = Throw message.
Proof. induction entries as [|e entries IH]; [done | exact IH]. Qed.

Lemma cleaned_fold_plain w entries acc m :
  foldl (cleaned_entry w) (Return acc) entries = Return m →
  all_values plain acc → all_values plain m.
Proof.
  revert acc. induction entries as [|[key value] entries IH]; intros acc.
  - simpl. by intros [= <-].
  - cbn [foldl cleaned_entry]. intros Hf Hacc.
    destruct (typeof value) eqn:Et;
      try (apply (IH _ Hf), all_values_assign; [unfold plain; auto | done]).
    all: destruct (nullish value); [by apply (IH _ Hf)|].
    all: destruct (JSON_stringify w value) as [text|msg];
      [| by rewrite cleaned_fold_throw in Hf].
    all: apply (IH _ Hf), all_values_assign; [unfold plain; simpl; auto | done].
Qed.

Lemma cleaned_entry_other w acc acc' key value k :
  cleaned_entry w (Return acc) (key, value) = Return acc' → key ≠ k →
  acc' !! k = acc !! k.
Proof.
  intros Estep Hne. cbn [cleaned_entry] in Estep.
  destruct (typeof value);
    try (injection Estep as <-; by apply assign_lookup_other).
  all: destruct (nullish value); [by injection Estep as <-|].
  all: destruct (JSON_stringify w value) as [text|]; [|done].
  all: injection Estep as <-; by apply assign_lookup_other.
Qed.

Lemma cleaned_fold_proto w entries acc m :
  foldl (cleaned_entry w) (Return acc) entries = Return m →
  m !! PROTO = acc !! PROTO.
Proof.
  revert acc. induction entries as [|[key value] entries IH]; intros acc.
  - simpl. by intros [= <-].
  - cbn [foldl]. intros Hf.
    destruct (cleaned_entry w (Return acc) (key, value)) as [acc'|msg] eqn:Estep;
      [| by rewrite cleaned_fold_throw in Hf].
    rewrite (IH acc' Hf). cbn [cleaned_entry] in Estep.
    destruct (typeof value);
      try (injection Estep as <-; by apply assign_lookup_proto).
    all: destruct (nullish value); [by injection Estep as <-|].
    all: destruct (JSON_stringify w value) as [text|]; [|done].
    all: injection Estep as <-; by apply assign_lookup_proto.
Qed.

Lemma cleaned_fold_lookup w entries acc m k :
  foldl (cleaned_entry w) (Return acc) entries = Return m →
  NoDup entries.*1 → k ≠ PROTO →
  match (list_to_map entries : gmap jsstring JValue) !! k with
  | Some v => field_outcome w v (acc !! k) (m !! k)
  | None => m !! k = acc !! k
  end.
Proof.
  revert acc. induction entries as [|[key value] entries IH]; intros acc.
  - simpl. rewrite lookup_empty. by intros [= <-].
  - intros Hf Hnd Hk. apply NoDup_cons in Hnd as [Hkey Hnd].
    cbn [list_to_map foldr uncurry fst snd].
    cbn [foldl] in Hf.
    destruct (cleaned_entry w (Return acc) (key, value)) as [acc'|msg] eqn:Estep;
      [| by rewrite cleaned_fold_throw in Hf].
    specialize (IH acc' Hf Hnd Hk).
    destruct (decide (key = k)) as [->|Hne].
    + rewrite lookup_insert_eq.
      rewrite (not_elem_of_list_to_map_1 _ _ Hkey) in IH. rewrite IH.
      unfold field_outcome. cbn [cleaned_entry] in Estep.
      destruct (typeof value);
        try (injection Estep as <-;
             by rewrite assign_lookup_ne, lookup_insert_eq).
      all: destruct (nullish value); [by injection Estep as <-|].
      all: destruct (JSON_stringify w value) as [text|]; [|done].
      all: injection Estep as <-; exists text;
        by rewrite assign_lookup_ne, lookup_insert_eq.
    + rewrite (lookup_insert_ne _ key k) by done.
      by rewrite (cleaned_entry_other _ _ _ _ _ _ Estep Hne) in IH.
Qed.

Lemma plain_or_else_read m k v :
  all_values plain m → plain v → plain (or_else (read (m !! k)) v).
Proof.
  intros Hm Hv. unfold or_else, read.
  destruct (m !! k) as [x|] eqn:E; simpl; [|done].
  destruct (truthy x); [by apply (Hm k) | done].
Qed.

(** When the cleaned object has no truthy [source], the document's own
    metadata has none either. *)
Lemma source_fallback_falsy w md m :
  stringify_nonempty w →
  foldl (cleaned_entry w) (Return ∅)
        (map_to_list (spread (or_else md (JObj [])))) = Return m →
  truthy (read (m !! js "source")) = false →
  truthy (optional_source md) = false.
Proof.
  intros Hne Hf Hm.
  pose proof (cleaned_fold_lookup w _ _ _ (js "source") Hf
                (NoDup_fst_map_to_list _) ltac:(discriminate)) as Hk.
  rewrite list_to_map_to_list, lookup_empty in Hk.
  unfold optional_source.
  destruct md as [| |b|x|s|xs|members]; try done.
  cbn [nullish member default or_else truthy spread] in *.
  unfold read in *.
  destruct (obj_map members !! js "source") as [v|]; [|done].
  unfold field_outcome in Hk. cbn [default].
  destruct v as [| |b|x|s|xs|ms]; cbn [typeof nullish] in Hk; try done.
  - by rewrite Hk in Hm.
  - by rewrite Hk in Hm.
  - by rewrite Hk in Hm.
  - destruct Hk as (text & Ht & Hk). rewrite Hk in Hm. simpl in Hm.
    apply Hne in Ht. by rewrite bool_decide_eq_false_2 in Hm.
  - destruct Hk as (text & Ht & Hk). rewrite Hk in Hm. simpl in Hm.
    apply Hne in Ht. by rewrite bool_decide_eq_false_2 in Hm.
Qed.

Lemma cleaned_document_plain w index doc d :
  stringify_nonempty w →
  cleaned_document w index doc = Return d →
  all_values plain (metadata d).
Proof.
  intros Hne. unfold cleaned_document.
  destruct (foldl _ _ _) as [m|] eqn:Hf; [|done].
  intros [= <-]. cbn [metadata].
  assert (all_values plain m) as Hm
    by (eapply cleaned_fold_plain; [exact Hf | apply all_values_empty]).
  set (src := or_else (or_else _ _) _).
  assert (plain src) as Hsrc.
  { subst src. unfold or_else.
    destruct (truthy (read (m !! js "source"))) eqn:Et.
    - rewrite Et. unfold read in *.
      destruct (m !! js "source") as [x|] eqn:Ex; [|done].
      by apply (Hm (js "source")).
    - rewrite (source_fallback_falsy w _ _ Hne Hf Et).
      unfold plain. simpl. auto. }
  apply all_values_insert.
  - apply plain_or_else_read; [by apply all_values_insert|].
    unfold plain; simpl; auto.
  - by apply all_values_insert.
Qed.

Lemma cleaned_document_field w index doc d k v :
  cleaned_document w index doc = Return d →
  raw_fields doc !! k = Some v → k ∉ derived_inline → k ≠ PROTO →
  field_outcome w v None (metadata d !! k).
Proof.
  unfold cleaned_document.
  destruct (foldl _ _ _) as [m|] eqn:Hf; [|done].
  intros [= <-] Hraw Hk Hp. cbn [metadata]. unfold derived_inline in Hk.
  rewrite !lookup_insert_ne by set_solver.
  pose proof (cleaned_fold_lookup w _ _ _ k Hf (NoDup_fst_map_to_list _) Hp)
    as H.
  fold (raw_fields doc) in H.
  by rewrite list_to_map_to_list, Hraw, lookup_empty in H.
Qed.

Lemma cleaned_document_proto w index doc d :
  cleaned_document w index doc = Return d → metadata d !! PROTO = None.
Proof.
  unfold cleaned_document.
  destruct (foldl _ _ _) as [m|] eqn:Hf; [|done].
  intros [= <-]. cbn [metadata].
  rewrite !lookup_insert_ne by done.
  by rewrite (cleaned_fold_proto _ _ _ _ Hf), lookup_empty.
Qed.

Lemma clean_from_elem w index docSplits chunks d :
  clean_from w index docSplits = Return chunks → d ∈ chunks →
  ∃ i doc, doc ∈ docSplits ∧ cleaned_document w i doc = Return d.
Proof.
  revert index chunks. induction docSplits as [|doc rest IH];
    intros index chunks; simpl.
  - intros [= <-] Hd. by apply not_elem_of_nil in Hd.
  - destruct (cleaned_document w index doc) as [d0|] eqn:E0; [|done].
    destruct (clean_from w (S index) rest) as [ds|] eqn:E1; [|done].
    intros [= <-] Hd. apply elem_of_cons in Hd as [->|Hd].
    + exists index, doc. split; [left | done].
    + destruct (IH _ _ E1 Hd) as (i & doc' & Hin & Hc).
      exists i, doc'. split; [by right | done].
Qed.

(** C7, as the code has it.  The inline step of [initializeRAG] leaves only
    strings, numbers and booleans in the metadata it hands to the store: a
    field that is [null] or [undefined] is dropped, an object or an array is
    replaced by its JSON text.  [cleanDocumentMetadata] keeps every value
    that [isPrimitiveType] accepts, which besides strings, numbers and
    booleans are [null], [undefined] and arrays of accepted values, and
    replaces every other value by a string.  This is the outcome for every
    field but one: neither step gives the cleaned object a field named
    [__proto__], whatever the document has under that name. *)
Theorem metadata_sanitized :
  (∀ w docSplits chunks d,
     stringify_nonempty w →
     cleanedDocSplits w docSplits = Return chunks → d ∈ chunks →
     all_values plain (metadata d))
  ∧ (∀ w index doc d k v,
       cleaned_document w index doc = Return d →
       raw_fields doc !! k = Some v → k ∉ derived_inline →
       if bool_decide (k = PROTO) then metadata d !! k = None
       else field_outcome w v None (metadata d !! k))
  ∧ (∀ stringify to_text chunk_id_text iso_now documents d,
       d ∈ cleanDocumentMetadata stringify to_text chunk_id_text iso_now
             documents →
       all_values storable (metadata d))
  ∧ (∀ stringify to_text chunk_id_text iso_now index doc k v,
       raw_fields doc !! k = Some v → k ∉ derived_util →
       if bool_decide (k = PROTO)
       then metadata (Neo4j.clean_document stringify to_text chunk_id_text
                        iso_now index doc) !! k = None
       else util_outcome stringify to_text v
              (metadata (Neo4j.clean_document stringify to_text chunk_id_text
                           iso_now index doc) !! k)).
Proof.
  split; [|split; [|split]].
  - intros w docSplits chunks d Hne Hc Hd.
    destruct (clean_from_elem _ _ _ _ _ Hc Hd) as (i & doc & _ & Hdoc).
    by apply (cleaned_document_plain w i doc).
  - intros w index doc d k v Hd Hraw Hk. case_bool_decide as Hp.
    + subst k. by apply (cleaned_document_proto w index doc).
    + by apply (cleaned_document_field w index doc).
  - apply cleanDocumentMetadata_storable.
  - intros stringify to_text chunk_id_text iso_now index doc k v Hraw Hk.
    case_bool_decide as Hp.
    + subst k. apply clean_document_proto.
    + by apply clean_document_field.
Qed.

Lemma braces_nonempty : stringify_nonempty demo_world.
Proof. intros v text. simpl. unfold braces. by intros [= <-]. Qed.

Lemma metadata_sanitized_witness :
  (∃ d, cleanedDocSplits demo_world [tagged_doc] = Return [d]
        ∧ all_values plain (metadata d)
        ∧ field_outcome demo_world (JObj [(js "from", JBool true)]) None
            (metadata d !! js "loc")
        ∧ metadata d !! js "loc" = Some (JStr (js "{}"))
        ∧ metadata d !! js "note" = None)
  ∧ all_values storable
      (metadata (Neo4j.clean_document braces as_text numbered numbered 0
                   tagged_doc))
  ∧ util_outcome braces as_text (JObj [(js "from", JBool true)])
      (metadata (Neo4j.clean_document braces as_text numbered numbered 0
                   tagged_doc) !! js "loc").
Proof.
  destruct metadata_sanitized as (Hinline & Hfield & Hutil & Hufield).
  split; [|split].
  - eexists. split; [vm_compute; reflexivity|]. split; [|split].
    + refine (Hinline demo_world [tagged_doc] _ _ braces_nonempty _ _).
      * vm_compute. reflexivity.
      * apply list_elem_of_singleton. reflexivity.
    + refine (Hfield demo_world 0 tagged_doc _ (js "loc") _ _ _ _).
      * vm_compute. reflexivity.
      * vm_compute. reflexivity.
      * apply (bool_decide_unpack _). vm_compute. reflexivity.
    + split; vm_compute; reflexivity.
  - refine (Hutil braces as_text numbered numbered [tagged_doc] _ _).
    apply list_elem_of_singleton. reflexivity.
  - refine (Hufield braces as_text numbered numbered 0 tagged_doc
              (js "loc") _ _ _).
    + vm_compute. reflexivity.
    + apply (bool_decide_unpack _). vm_compute. reflexivity.
Defined.

(** C7 as stated fails for [cleanDocumentMetadata]: a list of tags stays an
    array and a [null] note stays [null]; neither is a string, a number or a
    boolean, and neither was dropped or turned into a string. *)
Lemma cleanDocumentMetadata_keeps_arrays_and_null :
  let d := Neo4j.clean_document braces as_text numbered numbered 0 tagged_doc in
  cleanDocumentMetadata braces as_text numbered numbered [tagged_doc] = [d]
  ∧ metadata d !! js "tags" = Some (JArr [JStr (js "a")])
  ∧ typeof (JArr [JStr (js "a")]) = TObject
  ∧ metadata d !! js "note" = Some JNull
  ∧ typeof JNull = TObject
  ∧ ¬ all_values plain (metadata d).
Proof.
  cbv zeta. split; [reflexivity|]. split; [by vm_compute|].
  split; [reflexivity|]. split; [by vm_compute|]. split; [reflexivity|].
  intros H.
  assert (plain JNull) as [Hp|[Hp|Hp]]
    by (apply (H (js "note")); by vm_compute); discriminate.
Qed.

(* ===================================================================== *)
(** ** [initializeRAG] and the handlers                                  *)
(* ===================================================================== *)

Lemma emit_add e st : emit e st = add_effects [e] st.
Proof. reflexivity. Qed.

Lemma add_effects_nil st : add_effects [] st = st.
Proof. destruct st. unfold add_effects. simpl. by rewrite app_nil_r. Qed.

Lemma add_effects_app es1 es2 st :
  add_effects es2 (add_effects es1 st) = add_effects (es1 ++ es2) st.
Proof. unfold add_effects. simpl. by rewrite app_assoc. Qed.

Lemma run_add a b w c : run (a + b) w c = run b w (run a w c).
Proof. revert c. induction a as [|a IH]; intros c; [done | apply IH]. Qed.

Lemma run_done n w st r : run n w (st, Done r) = (st, Done r).
Proof. induction n as [|n IH]; [done | exact IH]. Qed.

(** The loading loop, awaited to its end: one resumption per URL, whether
    its fetch succeeds or fails. *)
Lemma run_loads w us docs st :
  run (length us) w (next_url docs us st)
  = after_loads (docs ++ loaded w us) (add_effects (load_trace w us) st).
Proof.
  revert docs st. induction us as [|u us IH]; intros docs st.
  - simpl. by rewrite app_nil_r, add_effects_nil.
  - cbn [length run next_url resume].
    unfold loaded, load_trace. cbn [flat_map].
    unfold fetched at 1, load_events at 1.
    destruct (loader_load w u) as [loadedDocs|message].
    + rewrite IH, emit_add, add_effects_app, app_assoc. done.
    + rewrite IH, !emit_add, !add_effects_app. done.
Qed.

Lemma initializeRAG_unfold w st :
  isInitializing st = false →
  initializeRAG w st =
    let st1 :=
      emit (EModelInvoke (js "Hello"))
        {| vectorstore := vectorstore st; retriever := retriever st;
           chatModel := Some ChatOllama; isInitializing := true;
           initializationError := None; effects := effects st |} in
    match model_invoke w (js "Hello") with
    | Throw _ => fail (msg_ollama w) st1
    | Return _ =>
        finish w (loaded w (urls w)) (add_effects (load_trace w (urls w)) st1)
    end.
Proof.
  intros Hflag. unfold initializeRAG, enter. rewrite Hflag.
  replace (length (urls w) + 3) with (1 + (length (urls w) + 2)) by lia.
  rewrite (run_add 1). cbn [run resume].
  destruct (model_invoke w (js "Hello")) as [t|message].
  - rewrite run_add, run_loads. done.
  - unfold fail. apply run_done.
Qed.

Lemma finish_settled w docs st : settled (finish w docs st).2 = true.
Proof.
  unfold finish. destruct docs as [|d docs]; [done|].
  cbn [after_loads run resume].
  destruct (splitDocuments w (d :: docs)) as [docSplits|]; [|done].
  destruct (cleanedDocSplits w docSplits) as [chunks|]; [|done].
  cbn [resume]. by destruct (fromDocuments w chunks).
Qed.

Lemma finish_effects w docs st :
  ∃ more, effects (finish w docs st).1 = effects st ++ more
          ∧ match docs with
            | [] => more = []
            | _ :: _ => ∃ rest, more = ESplit docs :: rest
            end.
Proof.
  unfold finish. destruct docs as [|d docs].
  - exists []. simpl. by rewrite app_nil_r.
  - cbn [after_loads run resume].
    destruct (splitDocuments w (d :: docs)) as [docSplits|];
      [|exists [ESplit (d :: docs)]; eauto].
    destruct (cleanedDocSplits w docSplits) as [chunks|];
      [|exists [ESplit (d :: docs)]; eauto].
    exists [ESplit (d :: docs); EStore chunks].
    split; [|eauto]. cbn [resume].
    destruct (fromDocuments w chunks); simpl; by rewrite <- app_assoc.
Qed.

Lemma loaded_all_fail w us :
  Forall (λ u, ∃ message, loader_load w u = Throw message) us →
  loaded w us = [].
Proof.
  induction 1 as [|u us [message Hu] _ IH]; [done|].
  unfold loaded in *. cbn [flat_map]. unfold fetched at 1. by rewrite Hu, IH.
Qed.

(** C6: in a run that gets past the model check, every URL is fetched in
    turn; a fetch that fails writes one error line and adds nothing, and the
    loop goes on.  The documents handed to the splitter are those of the
    URLs that loaded, and with them the run succeeds when the later steps
    do.  When no document was loaded, in particular when every URL fails,
    the run throws the no-documents error, records it, and leaves the store
    as it was. *)
Theorem ingestion_skips_failed_urls (w : World) (st : State) :
  isInitializing st = false →
  (∃ text, model_invoke w (js "Hello") = Return text) →
  (∃ tail,
     effects (initializeRAG w st).1
       = effects st ++ [EModelInvoke (js "Hello")] ++ load_trace w (urls w)
         ++ tail
     ∧ match loaded w (urls w) with
       | [] => tail = []
       | _ :: _ => ∃ rest, tail = ESplit (loaded w (urls w)) :: rest
       end)
  ∧ (loaded w (urls w) = [] →
       (initializeRAG w st).2 = Done (Throw msg_no_documents)
       ∧ initializationError (initializeRAG w st).1 = Some msg_no_documents
       ∧ vectorstore (initializeRAG w st).1 = vectorstore st)
  ∧ (Forall (λ u, ∃ message, loader_load w u = Throw message) (urls w) →
       loaded w (urls w) = [])
  ∧ (∀ docSplits chunks,
       loaded w (urls w) ≠ [] →
       splitDocuments w (loaded w (urls w)) = Return docSplits →
       cleanedDocSplits w docSplits = Return chunks →
       fromDocuments w chunks = Return tt →
       (initializeRAG w st).2 = Done (Return tt)
       ∧ vectorstore (initializeRAG w st).1 = Some (Neo4jVectorStore chunks)).
Proof.
  intros Hflag [text Hmodel].
  rewrite (initializeRAG_unfold w st Hflag). cbn zeta. rewrite Hmodel.
  set (st1 := add_effects _ _).
  split; [|split; [|split]].
  - destruct (finish_effects w (loaded w (urls w)) st1) as (more & Heff & Hmore).
    exists more. split.
    + rewrite Heff. subst st1. simpl. by rewrite <- !app_assoc.
    + destruct (loaded w (urls w)); done.
  - intros ->. done.
  - apply loaded_all_fail.
  - intros docSplits chunks Hne Hsplit Hclean Hstore.
    unfold finish. destruct (loaded w (urls w)) as [|d docs] eqn:E; [done|].
    cbn [after_loads run resume]. rewrite Hsplit, Hclean. cbn [resume].
    by rewrite Hstore.
Qed.

(** One URL loads, one fails: the failure is logged once, the chunks come
    from the URL that loaded, and the run succeeds.  When both fail, the run
    throws the no-documents error. *)
Lemma ingestion_skips_failed_urls_witness :
  load_trace demo_world (urls demo_world)
  = [ ELoad (js "https://ollama.com");
      ELoad (js "https://ollama.com/blog");
      ELoadError (js "https://ollama.com/blog") (js "fetch failed") ]
  ∧ loaded demo_world (urls demo_world) = [tagged_doc]
  ∧ (∃ tail,
      effects (initializeRAG demo_world idle).1
        = effects idle ++ [EModelInvoke (js "Hello")]
          ++ load_trace demo_world (urls demo_world) ++ tail
      ∧ match loaded demo_world (urls demo_world) with
        | [] => tail = []
        | _ :: _ =>
            ∃ rest, tail = ESplit (loaded demo_world (urls demo_world)) :: rest
        end)
  ∧ (∃ chunks,
      cleanedDocSplits demo_world [tagged_doc] = Return chunks
      ∧ (initializeRAG demo_world idle).2 = Done (Return tt)
      ∧ vectorstore (initializeRAG demo_world idle).1
        = Some (Neo4jVectorStore chunks))
  ∧ (initializeRAG offline_world idle).2 = Done (Throw msg_no_documents)
  ∧ initializationError (initializeRAG offline_world idle).1
    = Some msg_no_documents.
Proof.
  assert (∃ text, model_invoke demo_world (js "Hello") = Return text) as Hm
    by (eexists; reflexivity).
  destruct (ingestion_skips_failed_urls demo_world idle eq_refl Hm)
    as (Htrace & _ & _ & Hok).
  destruct (ingestion_skips_failed_urls offline_world idle eq_refl Hm)
    as (_ & Hnone & Hall & _).
  split; [vm_compute; reflexivity|]. split; [vm_compute; reflexivity|].
  split; [exact Htrace|]. split.
  - eexists. split; [vm_compute; reflexivity|].
    apply (Hok [tagged_doc]); [by vm_compute | reflexivity | | reflexivity].
    vm_compute. reflexivity.
  - assert (loaded offline_world (urls offline_world) = []) as Hempty.
    { apply Hall. repeat constructor; eexists; reflexivity. }
    destruct (Hnone Hempty) as (Hpc & Herr & _). by split.
Defined.

Lemma fail_tracks message st : flag_tracks_run (fail message st).
Proof. done. Qed.

Lemma next_url_tracks docs us st :
  isInitializing st = true → flag_tracks_run (next_url docs us st).
Proof.
  intros H. destruct us as [|u us]; [|done].
  destruct docs; [done | exact H].
Qed.

Lemma resume_tracks w c : flag_tracks_run c → flag_tracks_run (resume w c).
Proof.
  destruct c as [st pc]. unfold flag_tracks_run. intros H.
  destruct pc as [|docs url rest|docs|chunks|r]; cbn [fst snd settled negb] in H;
    cbn [resume].
  - destruct (model_invoke w (js "Hello")); [by apply next_url_tracks | done].
  - destruct (loader_load w url); by apply next_url_tracks.
  - destruct (splitDocuments w docs) as [docSplits|]; [|done].
    by destruct (cleanedDocSplits w docSplits).
  - by destruct (fromDocuments w chunks).
  - done.
Qed.

Lemma run_tracks n w c : flag_tracks_run c → flag_tracks_run (run n w c).
Proof.
  revert c. induction n as [|n IH]; intros c Hc; [done|].
  apply IH. by apply resume_tracks.
Qed.

Lemma enter_tracks st : isInitializing st = false → flag_tracks_run (enter st).
Proof. intros H. unfold enter. by rewrite H. Qed.

Lemma enter_busy st :
  isInitializing st = true → enter st = (st, Done (Return tt)).
Proof. intros H. unfold enter. by rewrite H. Qed.

(** A whole call always settles. *)
Lemma initializeRAG_settles w st : settled (initializeRAG w st).2 = true.
Proof.
  destruct (isInitializing st) eqn:Hflag.
  - unfold initializeRAG. by rewrite (enter_busy st Hflag), run_done.
  - rewrite (initializeRAG_unfold w st Hflag). cbn zeta.
    destruct (model_invoke w (js "Hello")); [apply finish_settled | done].
Qed.

(** C8: the [isInitializing] guard.
    - A call made while the flag is set returns at once and changes nothing:
      no variable, no effect.
    - While a run that passed the guard is suspended at any of its [await]s
      the flag is set, so a call made then is such a no-op.
    - Every run that passed the guard settles, by returning or by throwing,
      and then the flag is cleared.
    - Once [vectorstore] is set, [POST /api/initialize] answers that the
      system is already initialized and changes nothing. *)
Theorem initialization_guard :
  (∀ w st, isInitializing st = true →
     initializeRAG w st = (st, Done (Return tt)))
  ∧ (∀ w st n, isInitializing st = false →
       settled (run n w (enter st)).2 = false →
       isInitializing (run n w (enter st)).1 = true
       ∧ ∀ w', initializeRAG w' (run n w (enter st)).1
               = ((run n w (enter st)).1, Done (Return tt)))
  ∧ (∀ w st, isInitializing st = false →
       ∃ result, (initializeRAG w st).2 = Done result
                 ∧ isInitializing (initializeRAG w st).1 = false)
  ∧ (∀ w st, is_Some (vectorstore st) →
       post_initialize w st = (st, already_initialized)).
Proof.
  assert (∀ w st, isInitializing st = true →
            initializeRAG w st = (st, Done (Return tt))) as Hbusy.
  { intros w st H. unfold initializeRAG. rewrite (enter_busy st H).
    apply run_done. }
  split; [exact Hbusy|]. split; [|split].
  - intros w st n Hflag Hpending.
    pose proof (run_tracks n w _ (enter_tracks st Hflag)) as Ht.
    unfold flag_tracks_run in Ht. rewrite Hpending in Ht.
    split; [exact Ht|]. intros w'. by apply Hbusy.
  - intros w st Hflag.
    pose proof (run_tracks (length (urls w) + 3) w _ (enter_tracks st Hflag))
      as Ht.
    unfold flag_tracks_run in Ht. fold (initializeRAG w st) in Ht.
    rewrite (initializeRAG_settles w st) in Ht.
    pose proof (initializeRAG_settles w st) as Hs.
    destruct (initializeRAG w st) as [st' [| | | |r]]; try done.
    by exists r.
  - intros w st [vs Hvs]. unfold post_initialize. by rewrite Hvs.
Qed.

(** The guard at work: a run suspended at its second [await] (the first
    fetch) has the flag set, and a second call then changes nothing; the run
    itself ends with the flag cleared and the store set, after which the
    endpoint only acknowledges. *)
Lemma initialization_guard_witness :
  initializeRAG demo_world busy = (busy, Done (Return tt))
  ∧ settled (run 1 demo_world (enter idle)).2 = false
  ∧ isInitializing (run 1 demo_world (enter idle)).1 = true
  ∧ initializeRAG demo_world (run 1 demo_world (enter idle)).1
    = ((run 1 demo_world (enter idle)).1, Done (Return tt))
  ∧ (∃ result, (initializeRAG demo_world idle).2 = Done result
               ∧ isInitializing (initializeRAG demo_world idle).1 = false)
  ∧ (∃ result, (initializeRAG offline_world idle).2 = Done result
               ∧ isInitializing (initializeRAG offline_world idle).1 = false)
  ∧ post_initialize demo_world (initializeRAG demo_world idle).1
    = ((initializeRAG demo_world idle).1, already_initialized).
Proof.
  assert (settled (run 1 demo_world (enter idle)).2 = false) as Hp
    by reflexivity.
  destruct initialization_guard as (Hbusy & Hmid & Hend & Hready).
  split; [apply Hbusy; reflexivity|].
  split; [exact Hp|].
  destruct (Hmid demo_world idle 1 eq_refl Hp) as [Hflag Hnoop].
  split; [exact Hflag|]. split; [apply Hnoop|].
  split; [apply Hend; reflexivity|].
  split; [apply Hend; reflexivity|].
  apply Hready. vm_compute. eauto.
Defined.

Lemma member_absent name : member (JObj []) name = Some JUndef.
Proof. unfold member, obj_map. simpl. by rewrite lookup_empty. Qed.

Lemma destructure_falsy reqBody name v :
  member reqBody name = Some v → truthy v = false →
  ∃ flag, destructure reqBody name = Some (v, flag).
Proof.
  intros Hm Hv. unfold destructure. rewrite Hm.
  destruct reqBody as [| |b|x|s|xs|members]; try done; cbn [member];
    try (by exists (JBool true)).
  destruct (read _); eauto.
Qed.

(** C10: on both chat endpoints a body whose field (topic, respectively
    question) reads as a falsy value, be it missing, the empty string, zero,
    [false] or [null], gets the 400 answer of the missing field, the same
    answer as the empty body, and the chain is not invoked. *)
Theorem chat_rejects_falsy_field
    (w : World) (st : State) (reqBody v : JValue) :
  (member reqBody (js "topic") = Some v → truthy v = false →
     post_before_rag w st reqBody = (bad_request (js "Topic is required"), [])
     ∧ post_before_rag w st reqBody = post_before_rag w st (JObj []))
  ∧ (member reqBody (js "question") = Some v → truthy v = false →
     post_with_rag w st reqBody = (bad_request (js "Question is required"), [])
     ∧ post_with_rag w st reqBody = post_with_rag w st (JObj [])).
Proof.
  split; intros Hm Hv.
  - destruct (destructure_falsy _ _ _ Hm Hv) as [flag Hd].
    destruct (destructure_falsy (JObj []) (js "topic") JUndef
                (member_absent _) eq_refl) as [flag0 Hd0].
    unfold post_before_rag. rewrite Hd, Hd0, Hv. done.
  - destruct (destructure_falsy _ _ _ Hm Hv) as [flag Hd].
    destruct (destructure_falsy (JObj []) (js "question") JUndef
                (member_absent _) eq_refl) as [flag0 Hd0].
    unfold post_with_rag. rewrite Hd, Hd0, Hv. done.
Qed.

(** An empty topic on a server that is ready to chat. *)
Lemma chat_rejects_falsy_field_witness :
  post_before_rag demo_world (initializeRAG demo_world idle).1
    (JObj [(js "topic", JStr []); (js "enableThinking", JBool false)])
  = (bad_request (js "Topic is required"), [])
  ∧ post_with_rag demo_world (initializeRAG demo_world idle).1
      (JObj [(js "question", JNull)])
    = (bad_request (js "Question is required"), []).
Proof.
  split.
  - refine (proj1 (proj1 (chat_rejects_falsy_field demo_world _
              (JObj [(js "topic", JStr []); (js "enableThinking", JBool false)])
              (JStr [])) _ _)).
    + vm_compute. reflexivity.
    + reflexivity.
  - refine (proj1 (proj2 (chat_rejects_falsy_field demo_world _
              (JObj [(js "question", JNull)]) JNull) _ _)).
    + vm_compute. reflexivity.
    + reflexivity.
Defined.

(** The same handlers answer a proper request once the system is ready. *)
Example chat_answers_when_ready :
  (post_before_rag demo_world (initializeRAG demo_world idle).1
     (JObj [(js "topic", JStr (js "Ollama"))])).1
  = json (chat_body {| thinking := Some (js "A"); response := js "B";
                       hasThinking := true |}
            (js "before-rag") (js "topic") (JStr (js "Ollama"))
            (js "<think>A</think>B")).
Proof. vm_compute. reflexivity. Qed.

(* ===================================================================== *)
(** ** Further properties: [parseThinkingResponse]                       *)
(* ===================================================================== *)

(** X1: a text with no think block that opens with none of the three
    introductory phrases comes back whole: no reasoning, the trimmed text as
    the answer, the flag off. *)
Theorem parseThinkingResponse_plain_text (x : jsstring) :
  ¬ has_block x →
  (∀ p, p ∈ thinkingPatterns → ¬ occurs_at p 0 x) →
  parseThinkingResponse x =
    {| thinking := None; response := trim x; hasThinking := false |}.
Proof.
  intros Hb Hp. unfold parseThinkingResponse.
  rewrite (match_think_None x Hb), try_patterns_None; [done|].
  intros p Hin. by apply match_intro_no_prefix, Hp.
Qed.

Lemma parseThinkingResponse_plain_text_witness :
  parseThinkingResponse (js "  Ollama runs models locally. ") =
    {| thinking := None; response := js "Ollama runs models locally.";
       hasThinking := false |}.
Proof.
  refine (parseThinkingResponse_plain_text
            (js "  Ollama runs models locally. ") _ _).
  - apply no_block_by_search. vm_compute. reflexivity.
  - intros p Hp Hocc. apply prefix_ci_at in Hocc.
    unfold thinkingPatterns in Hp.
    repeat (apply elem_of_cons in Hp as [->|Hp];
            [vm_compute in Hocc; discriminate|]).
    by apply not_elem_of_nil in Hp.
Defined.

(** X2: the fallback rule.  A text with no think block that opens with one
    of the introductory phrases (in any letter case) and has its first blank
    line [j] code units after the phrase is split at that blank line when
    the part before it is longer than 50 code units: that part, trimmed, is
    the reasoning and what follows the blank line, trimmed, is the answer.
    With 50 code units or fewer before the blank line nothing is split. *)
Theorem parseThinkingResponse_intro_phrase (x p : jsstring) (j : nat) :
  ¬ has_block x → p ∈ thinkingPatterns → occurs_at p 0 x →
  first_blank_line x (length p) j →
  parseThinkingResponse x =
    if 50 <? length p + j
    then {| thinking := Some (trim (take (length p + j) x));
            response := trim (drop (length p + j + 2) x);
            hasThinking := true |}
    else {| thinking := None; response := trim x; hasThinking := false |}.
Proof.
  intros Hb Hp Hocc [Hblank Hmin].
  assert (length p + j ≤ length x) as Hlen.
  { apply occurs_at_bound in Hblank; [|done]. rewrite length_drop in Hblank.
    simpl in Hblank. lia. }
  assert (match_intro p x =
            Some (take (length p + j) x, drop (length p + j + 2) x)) as Hm.
  { unfold match_intro.
    rewrite (proj2 (prefix_ci_at p 0 x) Hocc : prefix_ci p x = true).
    by rewrite (search_ci_first _ _ _ Hblank Hmin). }
  unfold parseThinkingResponse. rewrite (match_think_None x Hb).
  rewrite (try_patterns_unique thinkingPatterns p x _ _ Hp Hm).
  - rewrite length_take, Nat.min_l by lia.
    by destruct (50 <? length p + j).
  - intros q Hq Hne. apply match_intro_no_prefix. intros Hoq.
    apply Hne. by apply (intro_phrase_unique q p x).
Qed.

Lemma parseThinkingResponse_intro_phrase_witness :
  parseThinkingResponse intro_text =
    {| thinking :=
         Some (js "Let me think about this carefully, considering every option.");
       response := js "Use Ollama."; hasThinking := true |}.
Proof.
  assert (search_ci [10; 10]%Z
            (drop (length (js "Let me think about this")) intro_text)
          = Some 37) as Hs by (vm_compute; reflexivity).
  apply search_ci_Some in Hs.
  refine (eq_trans
    (parseThinkingResponse_intro_phrase intro_text
       (js "Let me think about this") 37 _ _ _ Hs) _).
  - apply no_block_by_search. vm_compute. reflexivity.
  - left.
  - apply (prefix_ci_at _ 0). vm_compute. reflexivity.
  - vm_compute. reflexivity.
Defined.

(** X3: the flag and the reasoning go together: [hasThinking] is true
    exactly when [thinking] is not [null].  The frontend renders its
    thinking section, whatever its [error] prop, only for a reasoning the
    backend has flagged; a flagged reasoning can still be the empty string
    (a blank block), which the frontend does not render. *)
Theorem hasThinking_iff_thinking (x : jsstring) :
  (hasThinking (parseThinkingResponse x) = true
   ↔ is_Some (thinking (parseThinkingResponse x)))
  ∧ (∀ error,
       shows_thinking (thinking (parseThinkingResponse x)) error = true →
       hasThinking (parseThinkingResponse x) = true).
Proof.
  assert (hasThinking (parseThinkingResponse x) = true
          ↔ is_Some (thinking (parseThinkingResponse x))) as Hiff.
  { unfold parseThinkingResponse.
    destruct (match_think x) as [[[pre body] post]|];
      cbn [thinking hasThinking].
    - split; [intros _; eexists; reflexivity | done].
    - destruct (try_patterns thinkingPatterns x) as [r|] eqn:E.
      + destruct (try_patterns_Some _ _ _ E) as (p & m1 & m2 & _ & _ & ->).
        simpl. split; [intros _; eexists; reflexivity | done].
      + simpl. split; [done | by intros [? ?]]. }
  split; [exact Hiff|].
  intros error H. apply Hiff.
  unfold shows_thinking in H. apply bool_decide_eq_true_1 in H.
  unfold thinking_section in H.
  destruct (thinking (parseThinkingResponse x)); [by eexists|].
  destruct (truthy error); by destruct H.
Qed.

Lemma hasThinking_iff_thinking_witness :
  hasThinking (parseThinkingResponse (js "<think> </think>B")) = true
  ∧ thinking (parseThinkingResponse (js "<think> </think>B")) = Some []
  ∧ shows_thinking (thinking (parseThinkingResponse (js "<think> </think>B")))
      JUndef = false
  ∧ hasThinking (parseThinkingResponse (js "<think>A</think>B")) = true.
Proof.
  split; [|split; [|split]].
  - apply (proj1 (hasThinking_iff_thinking _)). vm_compute. by eexists.
  - vm_compute. reflexivity.
  - vm_compute. reflexivity.
  - apply (proj2 (hasThinking_iff_thinking _) JUndef). vm_compute. reflexivity.
Defined.

Lemma trimStart_head s c :
  head (trimStart s) = Some c → isWhiteSpace c = false.
Proof.
  induction s as [|d s IH]; simpl; [done|].
  destruct (isWhiteSpace d) eqn:E; [exact IH|]. simpl. by intros [= <-].
Qed.

Lemma trimEnd_head s c : head (trimEnd s) = Some c → head s = Some c.
Proof.
  destruct s as [|d s]; [done|]. rewrite trimEnd_cons.
  destruct (trimEnd s); [destruct (isWhiteSpace d)|]; done.
Qed.

Lemma trimEnd_last s c : last (trimEnd s) = Some c → isWhiteSpace c = false.
Proof.
  induction s as [|d s IH]; [done|]. rewrite trimEnd_cons.
  destruct (trimEnd s) as [|e t] eqn:E.
  - destruct (isWhiteSpace d) eqn:Ed; [done|]. simpl. by intros [= <-].
  - rewrite last_cons_cons. exact IH.
Qed.

Lemma trim_no_outer_whitespace s : no_outer_whitespace (trim s).
Proof.
  unfold trim. split; intros c Hc.
  - apply trimEnd_head in Hc. by apply trimStart_head in Hc.
  - by apply trimEnd_last in Hc.
Qed.

(** X4: whatever the text, the answer and the reasoning that the parser
    returns neither start nor end with white space. *)
Theorem parseThinkingResponse_fields_trimmed (x : jsstring) :
  no_outer_whitespace (response (parseThinkingResponse x))
  ∧ ∀ t, thinking (parseThinkingResponse x) = Some t → no_outer_whitespace t.
Proof.
  unfold parseThinkingResponse.
  destruct (match_think x) as [[[pre body] post]|];
    cbn [thinking response].
  - split; [apply trim_no_outer_whitespace|].
    intros t [= <-]. apply trim_no_outer_whitespace.
  - destruct (try_patterns thinkingPatterns x) as [r|] eqn:E.
    + destruct (try_patterns_Some _ _ _ E) as (p & m1 & m2 & _ & _ & ->).
      simpl. split; [apply trim_no_outer_whitespace|].
      intros t [= <-]. apply trim_no_outer_whitespace.
    + simpl. split; [apply trim_no_outer_whitespace | done].
Qed.

Lemma trimStart_sublist s : sublist (trimStart s) s.
Proof.
  induction s as [|c s IH]; simpl; [done|].
  destruct (isWhiteSpace c); [by apply sublist_cons | done].
Qed.

Lemma trimEnd_sublist s : sublist (trimEnd s) s.
Proof.
  induction s as [|c s IH]; [done|]. rewrite trimEnd_cons.
  destruct (trimEnd s) as [|d t] eqn:E.
  - destruct (isWhiteSpace c); [apply sublist_nil_l|].
    apply sublist_skip, sublist_nil_l.
  - by apply sublist_skip.
Qed.

Lemma trim_sublist s : sublist (trim s) s.
Proof.
  unfold trim. etrans; [apply trimEnd_sublist | apply trimStart_sublist].
Qed.

Lemma cut_sublist (x : jsstring) i k : i ≤ k → sublist (take i x ++ drop k x) x.
Proof.
  intros Hle. rewrite <- (take_drop i x) at 3.
  apply sublist_app; [done|].
  replace k with (i + (k - i)) by lia. rewrite <- drop_drop.
  apply sublist_drop.
Qed.

(** X5: the parser only removes text.  The answer and the reasoning are
    each made of code units of the input, in their order: nothing is added,
    changed or moved. *)
Theorem parseThinkingResponse_only_removes (x : jsstring) :
  sublist (response (parseThinkingResponse x)) x
  ∧ ∀ t, thinking (parseThinkingResponse x) = Some t → sublist t x.
Proof.
  unfold parseThinkingResponse, match_think.
  assert (∀ r, try_patterns thinkingPatterns x = Some r →
            sublist (response r) x
            ∧ ∀ t, thinking r = Some t → sublist t x) as Hintro.
  { intros r E.
    destruct (try_patterns_Some _ _ _ E) as (p & m1 & m2 & Hm & _ & ->).
    destruct (match_intro_Some _ _ _ _ Hm) as (n & -> & ->). simpl. split.
    - etrans; [apply trim_sublist | apply sublist_drop].
    - intros t [= <-]. etrans; [apply trim_sublist | apply sublist_take]. }
  destruct (search_ci OPEN x) as [i|]; cbn [mbind option_bind].
  - destruct (search_ci CLOSE _) as [j|]; cbn [mbind option_bind].
    + simpl. split.
      * etrans; [apply trim_sublist|]. rewrite drop_drop.
        apply cut_sublist. lia.
      * intros t [= <-]. etrans; [apply trim_sublist|].
        etrans; [apply sublist_take | apply sublist_drop].
    + destruct (try_patterns thinkingPatterns x) as [r|] eqn:E;
        [by apply Hintro|].
      simpl. split; [apply trim_sublist | done].
  - destruct (try_patterns thinkingPatterns x) as [r|] eqn:E;
      [by apply Hintro|].
    simpl. split; [apply trim_sublist | done].
Qed.

Lemma search_close_after (T A : jsstring) :
  60%Z ∉ T → search_ci CLOSE (T ++ CLOSE ++ A) = Some (length T).
Proof.
  induction T as [|c T IH]; intros Hno.
  - reflexivity.
  - apply not_elem_of_cons in Hno as [Hc Hno].
    change ((c :: T) ++ CLOSE ++ A) with (c :: (T ++ CLOSE ++ A)).
    cbn [search_ci].
    assert (prefix_ci CLOSE (c :: T ++ CLOSE ++ A) = false) as ->.
    { change CLOSE with (60%Z :: js "/think>"). cbn [prefix_ci].
      apply andb_false_iff. left. unfold ci_char, canonicalize.
      apply Z.eqb_neq. simpl.
      destruct ((97 <=? c)%Z && (c <=? 122)%Z) eqn:E; [|done].
      apply andb_true_iff in E as [E1 E2].
      apply Z.leb_le in E1, E2. lia. }
    by rewrite (IH Hno).
Qed.

(** X6: the format that [createThinkingPrompt] asks the model for is read
    back.  For a reasoning [T] without the character [<] and any answer
    [A], the text made of the opening tag, [T], the closing tag and [A]
    parses to the reasoning [T] and the answer [A], both trimmed. *)
Theorem parseThinkingResponse_requested_format (T A : jsstring) :
  60%Z ∉ T →
  parseThinkingResponse (OPEN ++ T ++ CLOSE ++ A) =
    {| thinking := Some (trim T); response := trim A; hasThinking := true |}.
Proof.
  intros Hno. unfold parseThinkingResponse, match_think.
  assert (search_ci OPEN (OPEN ++ T ++ CLOSE ++ A) = Some 0) as ->
    by reflexivity.
  cbn [mbind option_bind].
  change (drop (0 + length OPEN) (OPEN ++ T ++ CLOSE ++ A))
    with (T ++ CLOSE ++ A).
  rewrite (search_close_after T A Hno). cbn [mbind option_bind].
  rewrite take_app_length.
  replace (drop (length T + length CLOSE) (T ++ CLOSE ++ A)) with A.
  2:{ rewrite app_assoc. symmetry. apply drop_app_length'.
      by rewrite length_app. }
  done.
Qed.

Lemma parseThinkingResponse_requested_format_witness :
  parseThinkingResponse
    (OPEN ++ (js " compare 2 > 1 first ") ++ CLOSE ++ js " Two is larger.")
  = {| thinking := Some (trim (js " compare 2 > 1 first "));
       response := trim (js " Two is larger."); hasThinking := true |}.
Proof.
  apply parseThinkingResponse_requested_format.
  apply (bool_decide_unpack _). vm_compute. reflexivity.
Defined.

(* ===================================================================== *)
(** ** Further properties: [ConfigLoader] and [Neo4jUtils]               *)
(* ===================================================================== *)

Lemma env_step_keeps env cfg entry k :
  is_Some (cfg !! k) → is_Some (env_step env cfg entry !! k).
Proof.
  destruct entry as [configKey envKey]. unfold env_step.
  destruct (truthy _); [|done]. rewrite lookup_insert.
  case_decide; [by eexists | done].
Qed.

Lemma env_fold_keeps env table cfg k :
  is_Some (cfg !! k) → is_Some (foldl (env_step env) cfg table !! k).
Proof.
  revert cfg. induction table as [|e table IH]; intros cfg H; [done|].
  simpl. by apply IH, env_step_keeps.
Qed.

(** No step of the merge removes a key. *)
Lemma loadConfig_keeps k (w : Sources) :
  is_Some (getDefaults !! k) → is_Some (loadConfig w !! k).
Proof.
  intros H. unfold loadConfig, loadEnvironmentConfig.
  apply env_fold_keeps. rewrite loadLocalConfig_lookup.
  destruct (_ ≫= _); [by eexists|].
  unfold loadParentConfigs. rewrite walk_layer.
  by destruct (walk _ _ _ !! k); [eexists|].
Qed.

(** X7: every key of the built-in defaults is in the merged configuration,
    whatever the files and the environment hold: a source can replace a
    default, none can remove it. *)
Theorem loadConfig_keeps_defaults (w : Sources) (k : jsstring) :
  is_Some (getDefaults !! k) → is_Some (loadConfig w !! k).
Proof. apply loadConfig_keeps. Qed.

Lemma loadConfig_keeps_defaults_witness :
  is_Some (loadConfig blank_model_file !! js "DEFAULT_MODEL").
Proof.
  apply loadConfig_keeps_defaults. vm_compute. by eexists.
Defined.

Lemma visit_as_absent cfg f : visit cfg (as_absent f) = visit cfg f.
Proof. by destruct f. Qed.

Lemma walk_as_absent n dirs cfg :
  walk n (as_absent <$> dirs) cfg = walk n dirs cfg.
Proof.
  revert dirs cfg. induction n as [|n IH]; intros dirs cfg; [done|].
  destruct dirs as [|f dirs]; [done|].
  rewrite fmap_cons, !walk_cons, visit_as_absent. apply IH.
Qed.

Lemma loadLocalConfig_as_absent paths cfg :
  loadLocalConfig (as_absent <$> paths) cfg = loadLocalConfig paths cfg.
Proof.
  induction paths as [|[| |v] paths IH]; simpl; done.
Qed.

(** X8: a configuration file that cannot be read or parsed is skipped: the
    merged configuration is the one obtained with every such file missing,
    for parent files and for local candidates alike. *)
Theorem loadConfig_unreadable_as_absent (w : Sources) :
  loadConfig (sources_as_absent w) = loadConfig w.
Proof.
  unfold loadConfig, loadParentConfigs.
  change (localConfigPaths (sources_as_absent w))
    with (as_absent <$> localConfigPaths w).
  cbn [sources_as_absent ancestors environ].
  by rewrite walk_as_absent, loadLocalConfig_as_absent.
Qed.

Lemma env_fold_same env1 env2 table cfg :
  (∀ envKey, envKey ∈ table.*2 → env1 !! envKey = env2 !! envKey) →
  foldl (env_step env1) cfg table = foldl (env_step env2) cfg table.
Proof.
  revert cfg. induction table as [|[ck ek] table IH]; intros cfg H; [done|].
  cbn [foldl].
  assert (env_step env1 cfg (ck, ek) = env_step env2 cfg (ck, ek)) as ->.
  { unfold env_step, getenv. rewrite (H ek); [done|]. left. }
  apply IH. intros envKey Hin. apply H. by right.
Qed.

(** X9: the environment step goes by the table only.  A configuration key
    that is not one of the table's nine keeps its value, and two
    environments that agree on the table's variables give the same result:
    a variable outside the table, such as SERVER_PORT (the table reads PORT)
    or CHUNK_SIZE, changes nothing. *)
Theorem loadEnvironmentConfig_table_only
    (env1 env2 : gmap jsstring jsstring) (cfg : gmap jsstring JValue)
    (k : jsstring) :
  (k ∉ envMapping.*1 → loadEnvironmentConfig env1 cfg !! k = cfg !! k)
  ∧ (same_table_variables env1 env2 →
     loadEnvironmentConfig env1 cfg = loadEnvironmentConfig env2 cfg).
Proof.
  split.
  - intros Hk. unfold loadEnvironmentConfig.
    rewrite (env_fold_lookup _ _ _ _ envMapping_NoDup).
    by rewrite (not_elem_of_list_to_map_1 _ _ Hk).
  - apply env_fold_same.
Qed.

Lemma loadEnvironmentConfig_table_only_witness :
  loadEnvironmentConfig {[ js "SERVER_PORT" := js "9000" ]} getDefaults
  = loadEnvironmentConfig ∅ getDefaults
  ∧ loadEnvironmentConfig {[ js "CHUNK_SIZE" := js "900" ]} getDefaults
      !! js "CHUNK_SIZE" = None.
Proof.
  split.
  - refine (proj2 (loadEnvironmentConfig_table_only _ _ _ []) _).
    intros envKey Hin. rewrite lookup_empty.
    apply lookup_singleton_ne. intros <-.
    revert Hin. apply (bool_decide_unpack _). vm_compute. reflexivity.
  - refine (eq_trans (proj1 (loadEnvironmentConfig_table_only _ ∅ getDefaults
                                (js "CHUNK_SIZE")) _) _).
    + apply (bool_decide_unpack _). vm_compute. reflexivity.
    + vm_compute. reflexivity.
Defined.

(** The resolved value of a key, layer by layer. *)
Lemma loadConfig_lookup (w : Sources) k :
  loadConfig w !! k =
    match env_value w k with
    | Some v => Some (JStr v)
    | None =>
        match local_value w k with
        | Some v => Some v
        | None =>
            match parent_value w k with
            | Some v => Some v
            | None => getDefaults !! k
            end
        end
    end.
Proof.
  unfold loadConfig, loadEnvironmentConfig.
  rewrite (env_fold_lookup _ _ _ _ envMapping_NoDup).
  unfold env_value, env_defines, local_value, parent_value.
  destruct ((list_to_map envMapping : gmap jsstring jsstring) !! k) as [ek|];
    cbn [mbind option_bind].
  - destruct (environ w !! ek) as [v|]; cbn [mbind option_bind].
    + destruct (bool_decide (v = [])); [|done].
      rewrite loadLocalConfig_lookup. destruct (_ ≫= _); [done|].
      apply walk_layer.
    + rewrite loadLocalConfig_lookup. destruct (_ ≫= _); [done|].
      apply walk_layer.
  - rewrite loadLocalConfig_lookup. destruct (_ ≫= _); [done|].
    apply walk_layer.
Qed.

Lemma env_value_nonempty w k v : env_value w k = Some v → v ≠ [].
Proof.
  unfold env_value. destruct (env_defines w k) as [s|]; [|done]. simpl.
  case_bool_decide; [done|]. by intros [= <-].
Qed.

Lemma required_default_truthy k :
  k ∈ required → truthy (read (getDefaults !! k)) = true.
Proof.
  unfold required. intros Hk.
  repeat (apply elem_of_cons in Hk as [->|Hk]; [by vm_compute|]).
  by apply not_elem_of_nil in Hk.
Qed.

Lemma required_resolved_truthy (w : Sources) k :
  k ∈ required → no_file_defines w k →
  truthy (read (loadConfig w !! k)) = true.
Proof.
  intros Hk [Hlocal Hparent]. rewrite loadConfig_lookup, Hlocal, Hparent.
  destruct (env_value w k) as [v|] eqn:E.
  - apply env_value_nonempty in E. simpl. by rewrite bool_decide_eq_false_2.
  - by apply required_default_truthy.
Qed.

Lemma missing_nil cfg :
  (∀ k, k ∈ required → truthy (read (cfg !! k)) = true) → missing cfg = [].
Proof.
  intros H. unfold missing, required in *. simpl.
  rewrite !H; [done | | |]; set_solver.
Qed.

Lemma missing_nil_inv cfg k :
  missing cfg = [] → k ∈ required → truthy (read (cfg !! k)) = true.
Proof.
  intros Hm Hk.
  destruct (truthy (read (cfg !! k))) eqn:E; [done|]. exfalso.
  assert (k ∈ missing cfg) as Hin.
  { unfold missing. rewrite list_elem_of_In, filter_In, <- list_elem_of_In.
    by rewrite E. }
  rewrite Hm in Hin. by apply not_elem_of_nil in Hin.
Qed.

(** X10: validation of the loaded configuration can only fail because of a
    file.  When no configuration file, parent or local, defines any of the
    three required keys, [validate()] returns [true] whatever the
    environment holds: the defaults are truthy, and the environment step
    only writes non-empty strings. *)
Theorem validate_without_files (w : Sources) :
  (∀ k, k ∈ required → no_file_defines w k) →
  validate (loadConfig w) = Return true.
Proof.
  intros Hfiles. unfold validate. rewrite missing_nil; [done|].
  intros k Hk. by apply required_resolved_truthy, Hfiles.
Qed.

Lemma validate_without_files_witness :
  validate (loadConfig empty_host_env) = Return true.
Proof.
  apply validate_without_files. intros k Hk. split; reflexivity.
Defined.

(** X11: after a successful [validate()], [get] of a required key returns
    the key's truthy value whatever default the caller passes; the default
    is never used. *)
Theorem validate_then_get (cfg : gmap jsstring JValue) (k : jsstring) :
  validate cfg = Return true → k ∈ required →
  ∃ v, cfg !! k = Some v ∧ truthy v = true
       ∧ ∀ defaultValue, get cfg k defaultValue = Data v.
Proof.
  unfold validate. intros Hv Hk.
  destruct (missing cfg) as [|key keys] eqn:Hm; [|done].
  pose proof (missing_nil_inv cfg k Hm Hk) as Ht.
  unfold get. unfold read in *.
  destruct (cfg !! k) as [v|]; [|done]. simpl in *.
  exists v. split; [done|]. split; [done|].
  intros d. by destruct v.
Qed.

Lemma validate_then_get_witness :
  ∃ v, getDefaults !! js "OLLAMA_PORT" = Some v ∧ truthy v = true
       ∧ ∀ defaultValue,
           get getDefaults (js "OLLAMA_PORT") defaultValue = Data v.
Proof.
  apply validate_then_get.
  - vm_compute. reflexivity.
  - apply (bool_decide_unpack _). vm_compute. reflexivity.
Defined.

(** X12: masking is idempotent: the safe view of a safe view is the same
    safe view. *)
Theorem getSafeConfig_idempotent (toUpperCase : jsstring → jsstring)
    (cfg : gmap jsstring JValue) :
  getSafeConfig toUpperCase (getSafeConfig toUpperCase cfg)
  = getSafeConfig toUpperCase cfg.
Proof.
  apply map_eq. intros k. rewrite !getSafeConfig_lookup.
  case_bool_decide; [done|].
  destruct (cfg !! k) as [v|]; [|done]. simpl.
  by destruct (isSensitive toUpperCase k).
Qed.

(** X13: the safe view of a loaded configuration always has NEO4J_PASSWORD,
    and always as the mask: whichever source set the password, its value is
    not shown.  (That upper-casing leaves this upper-case name alone is the
    one fact about [toUpperCase] that is used.) *)
Theorem getSafeConfig_hides_password (toUpperCase : jsstring → jsstring)
    (w : Sources) :
  toUpperCase (js "NEO4J_PASSWORD") = js "NEO4J_PASSWORD" →
  getSafeConfig toUpperCase (loadConfig w) !! js "NEO4J_PASSWORD"
  = Some (JStr (js "***")).
Proof.
  intros Hup. rewrite getSafeConfig_lookup.
  rewrite bool_decide_eq_false_2 by discriminate.
  destruct (loadConfig_keeps (js "NEO4J_PASSWORD") w) as [v ->];
    [vm_compute; by eexists|].
  simpl. unfold isSensitive. rewrite Hup. by vm_compute.
Qed.

Lemma getSafeConfig_hides_password_witness :
  getSafeConfig upper_ascii (loadConfig layered) !! js "NEO4J_PASSWORD"
  = Some (JStr (js "***")).
Proof.
  apply getSafeConfig_hides_password. vm_compute. reflexivity.
Defined.

Lemma or_else_truthy a b : truthy b = true → truthy (or_else a b) = true.
Proof. intros Hb. unfold or_else. by destruct (truthy a) eqn:E. Qed.

(** X14: [cleanDocumentMetadata] returns one document per input document,
    in order and with the page content untouched.  Each has the four
    derived fields: [content_length] is the length of the page content,
    [created_at] the time stamp, [source] a truthy value that is 'unknown'
    when the document had no source, and [chunk_id] the generated
    identifier when the document had none. *)
Theorem cleanDocumentMetadata_derived_fields
    (stringify : JValue → Completion jsstring) (to_text : JValue → jsstring)
    (chunk_id_text iso_now : nat → jsstring)
    (documents : list RawDoc) :
  length (cleanDocumentMetadata stringify to_text chunk_id_text iso_now documents)
  = length documents
  ∧ ∀ i doc, documents !! i = Some doc →
      ∃ d, cleanDocumentMetadata stringify to_text chunk_id_text iso_now
             documents !! i = Some d
           ∧ pageContent d = pageContent doc
           ∧ metadata d !! js "content_length"
             = Some (JNum (num_of_nat (length (pageContent doc))))
           ∧ metadata d !! js "created_at" = Some (JStr (iso_now i))
           ∧ (∃ source, metadata d !! js "source" = Some source
                        ∧ truthy source = true)
           ∧ (raw_fields doc !! js "source" = None →
              metadata d !! js "source" = Some (JStr (js "unknown")))
           ∧ (raw_fields doc !! js "chunk_id" = None →
              metadata d !! js "chunk_id" = Some (JStr (chunk_id_text i))).
Proof.
  unfold cleanDocumentMetadata. split; [apply length_imap|].
  intros i doc Hdoc. rewrite list_lookup_imap, Hdoc. simpl.
  eexists. split; [done|]. unfold Neo4j.clean_document.
  cbn [pageContent metadata].
  set (m0 := foldl _ ∅ _).
  assert (∀ k, k ≠ PROTO → raw_fields doc !! k = None → m0 !! k = None)
    as Hraw.
  { intros k Hp Hk.
    pose proof (clean_fold_lookup stringify to_text
                  (map_to_list (raw_fields doc)) ∅ k
                  (NoDup_fst_map_to_list _) Hp) as H.
    by rewrite list_to_map_to_list, Hk, lookup_empty in H. }
  split; [done|]. split; [by rewrite lookup_insert_eq|].
  split; [by rewrite lookup_insert_ne, lookup_insert_eq|].
  split; [|split].
  - eexists. split.
    + rewrite !lookup_insert_ne by done. by rewrite lookup_insert_eq.
    + by apply or_else_truthy.
  - intros Hk. rewrite !lookup_insert_ne by done.
    by rewrite lookup_insert_eq, (Hraw (js "source") ltac:(discriminate) Hk).
  - intros Hk. rewrite !lookup_insert_ne by done.
    rewrite lookup_insert_eq, lookup_insert_ne by done.
    by rewrite (Hraw (js "chunk_id") ltac:(discriminate) Hk).
Qed.

Lemma cleanDocumentMetadata_derived_fields_witness :
  ∃ d, cleanDocumentMetadata braces as_text numbered numbered
         [tagged_doc; tagged_doc] !! 1 = Some d
       ∧ pageContent d = js "text"
       ∧ metadata d !! js "source" = Some (JStr (js "unknown"))
       ∧ metadata d !! js "chunk_id" = Some (JStr (js "1")).
Proof.
  destruct (proj2 (cleanDocumentMetadata_derived_fields braces as_text
                     numbered numbered [tagged_doc; tagged_doc])
              1 tagged_doc eq_refl)
    as (d & Hd & Hpage & _ & _ & _ & Hsource & Hchunk).
  exists d. split; [exact Hd|]. split; [exact Hpage|]. split.
  - apply Hsource. vm_compute. reflexivity.
  - apply Hchunk. vm_compute. reflexivity.
Defined.

(* ===================================================================== *)
(** ** Further properties: initialization, the routes, the frontend      *)
(* ===================================================================== *)

(** How what is left of the body ends: by the outer [catch], or by the end
    of the [try]; either way on the state it started from, with more
    effects. *)
Lemma finish_cases w docs st :
  ∃ es, (∃ message, finish w docs st = fail message (add_effects es st))
        ∨ (∃ chunks, finish w docs st = succeed chunks (add_effects es st)).
Proof.
  unfold finish. destruct docs as [|d docs].
  - exists []. left. exists msg_no_documents. simpl.
    by rewrite add_effects_nil.
  - cbn [after_loads run resume]. rewrite emit_add.
    destruct (splitDocuments w (d :: docs)) as [docSplits|message].
    + destruct (cleanedDocSplits w docSplits) as [chunks|message].
      * cbn [resume]. rewrite emit_add, add_effects_app.
        eexists. destruct (fromDocuments w chunks); eauto.
      * exists [ESplit (d :: docs)]. left. by exists message.
    + exists [ESplit (d :: docs)]. left. by exists message.
Qed.

Lemma initializeRAG_cases w st :
  isInitializing st = false →
  ∃ es, (∃ message,
           initializeRAG w st = fail message (add_effects es (started st)))
        ∨ (∃ chunks,
             initializeRAG w st = succeed chunks (add_effects es (started st))).
Proof.
  intros Hflag. rewrite (initializeRAG_unfold w st Hflag). cbn zeta.
  fold (started st).
  destruct (model_invoke w (js "Hello")).
  - destruct (finish_cases w (loaded w (urls w))
                (add_effects (load_trace w (urls w)) (started st)))
      as (es & [[m H]|[c H]]); rewrite H, add_effects_app; eauto.
  - exists []. left. eexists. by rewrite add_effects_nil.
Qed.

Lemma initializeRAG_no_model w st message :
  isInitializing st = false →
  model_invoke w (js "Hello") = Throw message →
  initializeRAG w st = fail (msg_ollama w) (started st).
Proof.
  intros Hflag Hm. rewrite (initializeRAG_unfold w st Hflag). cbn zeta.
  by rewrite Hm.
Qed.

(** X15: when the model check fails, the run ends there.  Nothing is
    fetched (the only effect is the check itself), the call throws the
    cannot-connect message and records it, the store and the retriever are
    as before, and [chatModel] stays set to the model object that was just
    created. *)
Theorem initializeRAG_model_unreachable (w : World) (st : State)
    (message : jsstring) :
  isInitializing st = false →
  model_invoke w (js "Hello") = Throw message →
  initializeRAG w st =
    ({| vectorstore := vectorstore st; retriever := retriever st;
        chatModel := Some ChatOllama; isInitializing := false;
        initializationError := Some (msg_ollama w);
        effects := effects st ++ [EModelInvoke (js "Hello")] |},
     Done (Throw (msg_ollama w))).
Proof. apply initializeRAG_no_model. Qed.

Lemma initializeRAG_model_unreachable_witness :
  effects (initializeRAG no_model_world idle).1 = [EModelInvoke (js "Hello")]
  ∧ (initializeRAG no_model_world idle).2
    = Done (Throw (js "Cannot connect to Ollama at localhost:11434. Make sure Ollama is running.")).
Proof.
  rewrite (initializeRAG_model_unreachable no_model_world idle
             (js "ECONNREFUSED") eq_refl eq_refl).
  split; vm_compute; reflexivity.
Defined.

(** X16: what a run that passed the guard leaves behind.  [chatModel] is
    set in every case.  A run that throws records exactly the message it
    throws and leaves the store and the retriever as they were; a run that
    returns has cleared the recorded error and has set the store and the
    retriever built on it. *)
Theorem initializeRAG_outcome_recorded (w : World) (st : State) :
  isInitializing st = false →
  chatModel (initializeRAG w st).1 = Some ChatOllama
  ∧ ((∃ message,
        (initializeRAG w st).2 = Done (Throw message)
        ∧ initializationError (initializeRAG w st).1 = Some message
        ∧ vectorstore (initializeRAG w st).1 = vectorstore st
        ∧ retriever (initializeRAG w st).1 = retriever st)
     ∨ (∃ chunks,
          (initializeRAG w st).2 = Done (Return tt)
          ∧ initializationError (initializeRAG w st).1 = None
          ∧ vectorstore (initializeRAG w st).1 = Some (Neo4jVectorStore chunks)
          ∧ retriever (initializeRAG w st).1
            = Some (AsRetriever (Neo4jVectorStore chunks)))).
Proof.
  intros Hflag.
  destruct (initializeRAG_cases w st Hflag) as (es & [[m H]|[c H]]); rewrite H.
  - split; [done|]. left. by exists m.
  - split; [done|]. right. by exists c.
Qed.

Lemma initializeRAG_outcome_recorded_witness :
  chatModel (initializeRAG offline_world idle).1 = Some ChatOllama
  ∧ initializationError (initializeRAG offline_world idle).1
    = Some msg_no_documents
  ∧ initializationError (initializeRAG demo_world idle).1 = None.
Proof.
  destruct (initializeRAG_outcome_recorded offline_world idle eq_refl)
    as [Hchat _].
  split; [exact Hchat|]. split; vm_compute; reflexivity.
Defined.

(** X17: the store and the retriever are set together, and every call of
    [initializeRAG] keeps it so, whether it returns at the guard, throws or
    succeeds. *)
Theorem store_with_retriever_kept (w : World) (st : State) :
  store_with_retriever st → store_with_retriever (initializeRAG w st).1.
Proof.
  intros Hinv. destruct (isInitializing st) eqn:Hflag.
  - unfold initializeRAG. by rewrite (enter_busy st Hflag), run_done.
  - destruct (initializeRAG_cases w st Hflag) as (es & [[m H]|[c H]]);
      rewrite H; unfold store_with_retriever; simpl; [done|].
    split; intros _; by eexists.
Qed.

Lemma store_with_retriever_kept_witness :
  store_with_retriever (initializeRAG demo_world idle).1
  ∧ store_with_retriever
      (initializeRAG offline_world (initializeRAG demo_world idle).1).1.
Proof.
  assert (store_with_retriever idle) as H0.
  { split; intros [? H]; discriminate H. }
  pose proof (store_with_retriever_kept demo_world idle H0) as H1.
  split; [exact H1|]. by apply store_with_retriever_kept.
Defined.

(** X18: [POST /api/initialize] on a server with no store and no run under
    way either succeeds, and then every later request is answered with the
    already-initialized acknowledgment, or answers 500 with the message
    that the run recorded, and then the store is still unset and the flag
    cleared, so that the next request runs the initialization again. *)
Theorem post_initialize_outcomes (w : World) (st : State) :
  isInitializing st = false → vectorstore st = None →
  ((post_initialize w st).2 = initialized_now
   ∧ ∀ w', post_initialize w' (post_initialize w st).1
           = ((post_initialize w st).1, already_initialized))
  ∨ (∃ message,
       (post_initialize w st).2 = initialize_failed message
       ∧ initializationError (post_initialize w st).1 = Some message
       ∧ vectorstore (post_initialize w st).1 = None
       ∧ isInitializing (post_initialize w st).1 = false).
Proof.
  intros Hflag Hstore.
  destruct (initializeRAG_cases w st Hflag) as (es & [[m H]|[c H]]).
  - right. exists m. unfold post_initialize. rewrite Hstore, H. simpl.
    by rewrite Hstore.
  - left.
    assert (post_initialize w st
            = ((succeed c (add_effects es (started st))).1, initialized_now))
      as -> by (unfold post_initialize; by rewrite Hstore, H).
    split; [done|]. intros w'. done.
Qed.

(** A failed request, then a retry that works, then a third request. *)
Lemma post_initialize_outcomes_witness :
  (post_initialize offline_world idle).2 = initialize_failed msg_no_documents
  ∧ (post_initialize demo_world (post_initialize offline_world idle).1).2
    = initialized_now
  ∧ (post_initialize offline_world
       (post_initialize demo_world (post_initialize offline_world idle).1).1).2
    = already_initialized.
Proof.
  assert (isInitializing (post_initialize offline_world idle).1 = false) as Hf
    by (vm_compute; reflexivity).
  assert (vectorstore (post_initialize offline_world idle).1 = None) as Hs
    by (vm_compute; reflexivity).
  destruct (post_initialize_outcomes demo_world _ Hf Hs)
    as [[Hok Hnext] | (message & Hbad & _)].
  - split; [vm_compute; reflexivity|]. split; [exact Hok|].
    by rewrite Hnext.
  - exfalso. vm_compute in Hbad. discriminate Hbad.
Defined.

(** X19: while a run is under way and the store is not set yet,
    [POST /api/initialize] answers at once that the system was initialized
    successfully, and changes nothing: the awaited call returns at the
    guard. *)
Theorem post_initialize_while_initializing (w : World) (st : State) :
  isInitializing st = true → vectorstore st = None →
  post_initialize w st = (st, initialized_now).
Proof.
  intros Hflag Hstore. unfold post_initialize, initializeRAG.
  by rewrite Hstore, (enter_busy st Hflag), run_done.
Qed.

Lemma post_initialize_while_initializing_witness :
  post_initialize offline_world busy = (busy, initialized_now)
  ∧ vectorstore busy = None.
Proof.
  split; [|reflexivity].
  apply post_initialize_while_initializing; reflexivity.
Defined.

Lemma destructure_truthy reqBody name v :
  member reqBody name = Some v → truthy v = true →
  ∃ flag, destructure reqBody name = Some (v, flag).
Proof.
  intros Hm Hv. unfold destructure. rewrite Hm.
  destruct reqBody as [| |b|x|s|xs|members]; try done; cbn [member];
    try (by exists (JBool true)).
  destruct (read _); eauto.
Qed.

(** X20: a well-formed chat request that comes too early is answered 503
    and the chain is not invoked: on the first route when [chatModel] is
    not set, on the retrieval route when the retriever or [chatModel] is
    not set. *)
Theorem chat_not_ready (w : World) (st : State) (reqBody v : JValue) :
  truthy v = true →
  (member reqBody (js "topic") = Some v → chatModel st = None →
     post_before_rag w st reqBody
     = (not_ready (js "Chat model not initialized"), []))
  ∧ (member reqBody (js "question") = Some v →
     retriever st = None ∨ chatModel st = None →
     post_with_rag w st reqBody
     = (not_ready (js "RAG system not initialized"), [])).
Proof.
  intros Hv. split.
  - intros Hm Hchat.
    destruct (destructure_truthy _ _ _ Hm Hv) as [flag Hd].
    unfold post_before_rag. by rewrite Hd, Hv, Hchat.
  - intros Hm Hnot.
    destruct (destructure_truthy _ _ _ Hm Hv) as [flag Hd].
    unfold post_with_rag. rewrite Hd, Hv. cbn [negb].
    destruct Hnot as [-> | ->]; [done|].
    by destruct (retriever st).
Qed.

(** The retrieval route after an ingestion that loaded nothing, and the
    first route before any initialization. *)
Lemma chat_not_ready_witness :
  post_with_rag demo_world (initializeRAG offline_world idle).1
    (JObj [(js "question", JStr (js "What is Ollama?"))])
  = (not_ready (js "RAG system not initialized"), [])
  ∧ post_before_rag demo_world idle (JObj [(js "topic", JStr (js "Ollama"))])
    = (not_ready (js "Chat model not initialized"), []).
Proof.
  split.
  - refine (proj2 (chat_not_ready demo_world _ _ (JStr (js "What is Ollama?"))
                     eq_refl) _ _).
    + vm_compute. reflexivity.
    + left. vm_compute. reflexivity.
  - refine (proj1 (chat_not_ready demo_world idle _ (JStr (js "Ollama"))
                     eq_refl) _ _).
    + vm_compute. reflexivity.
    + reflexivity.
Defined.

(** X21: the health report after a failed model check.  On a server with no
    store, once a run has failed because Ollama did not answer,
    [GET /api/health] reports [ollamaConnected] true (the flag only says
    that the model object exists), [ragInitialized] false, [isInitializing]
    false and the cannot-connect message as [initializationError]. *)
Theorem health_after_failed_model_check
    (w : World) (st : State) (message timestamp : jsstring)
    (host port model : JValue) (uri : jsstring) :
  isInitializing st = false → vectorstore st = None →
  model_invoke w (js "Hello") = Throw message →
  let r := get_health timestamp host port model uri (initializeRAG w st).1 in
  health_field r (js "ollamaConnected") = Some (JBool true)
  ∧ health_field r (js "ragInitialized") = Some (JBool false)
  ∧ health_field r (js "isInitializing") = Some (JBool false)
  ∧ health_field r (js "initializationError") = Some (JStr (msg_ollama w)).
Proof.
  intros Hflag Hstore Hm r. subst r.
  rewrite (initializeRAG_no_model w st message Hflag Hm).
  unfold get_health, health_field, fail, started, emit.
  cbn [fst vectorstore chatModel isInitializing initializationError json body
       member].
  rewrite Hstore. repeat split; by vm_compute.
Qed.

Lemma health_after_failed_model_check_witness :
  health_field
    (get_health (js "2025-01-01T00:00:00.000Z") (JStr (js "localhost"))
       (JStr (js "11434")) (JStr (js "llama3.2")) (js "bolt://localhost:7687")
       (initializeRAG no_model_world idle).1)
    (js "ollamaConnected") = Some (JBool true).
Proof.
  exact (proj1 (health_after_failed_model_check no_model_world idle
                  (js "ECONNREFUSED") _ _ _ _ _ eq_refl eq_refl eq_refl)).
Defined.

Lemma last_at_no_at s : 64%Z ∉ s → last_at s = None.
Proof.
  induction s as [|c s IH]; [done|]. intros H.
  apply not_elem_of_cons in H as [Hc Hs]. simpl.
  destruct (isLineTerminator c); [done|].
  rewrite (IH Hs). by rewrite bool_decide_eq_false_2.
Qed.

(** X22: a URI without an at-sign, such as the default
    bolt://localhost:7687, is reported unchanged by the credential
    masking. *)
Theorem hide_credentials_without_at (s : jsstring) :
  64%Z ∉ s → hide_credentials s = s.
Proof.
  induction s as [|c s IH]; [done|]. intros H.
  pose proof H as H'. apply not_elem_of_cons in H' as [_ Hs].
  cbn [hide_credentials].
  destruct (startsWith (js "//") (c :: s)).
  - rewrite last_at_no_at; [by rewrite IH|].
    intros Hin. apply H. by apply (subseteq_drop 2).
  - by rewrite IH.
Qed.

Lemma hide_credentials_without_at_witness :
  hide_credentials (js "bolt://localhost:7687") = js "bolt://localhost:7687".
Proof.
  apply hide_credentials_without_at.
  apply (bool_decide_unpack _). vm_compute. reflexivity.
Defined.

Lemma last_at_credentials cred rest :
  Forall (λ c, isLineTerminator c = false) cred → 64%Z ∉ rest →
  last_at (cred ++ 64%Z :: rest) = Some (length cred).
Proof.
  intros Hcred Hrest. induction Hcred as [|c cred Hc _ IH]; simpl.
  - by rewrite (last_at_no_at rest Hrest).
  - by rewrite Hc, IH.
Qed.

(** X23: credentials in the URI are masked whole.  For a URI made of a
    scheme without a slash, two slashes, credentials on one line (they may
    hold at-signs and slashes), an at-sign and a remainder without at-sign,
    the report shows the scheme, two slashes, three stars, the at-sign and
    the remainder: no code unit of the credentials is shown. *)
Theorem hide_credentials_masks (pre cred rest : jsstring) :
  47%Z ∉ pre → Forall (λ c, isLineTerminator c = false) cred → 64%Z ∉ rest →
  hide_credentials (pre ++ js "//" ++ cred ++ [64%Z] ++ rest)
  = pre ++ js "//***@" ++ rest.
Proof.
  intros Hpre Hcred Hrest. induction pre as [|c pre IH].
  - change ([] ++ js "//" ++ cred ++ [64%Z] ++ rest)
      with (47%Z :: 47%Z :: (cred ++ 64%Z :: rest)).
    cbn [hide_credentials].
    change (startsWith (js "//") (47%Z :: 47%Z :: (cred ++ 64%Z :: rest)))
      with true. cbn iota.
    change (drop 2 (47%Z :: 47%Z :: (cred ++ 64%Z :: rest)))
      with (cred ++ 64%Z :: rest).
    rewrite (last_at_credentials cred rest Hcred Hrest).
    change (drop (2 + length cred + 1)
              (47%Z :: 47%Z :: (cred ++ 64%Z :: rest)))
      with (drop (length cred + 1) (cred ++ 64%Z :: rest)).
    replace (drop (length cred + 1) (cred ++ 64%Z :: rest)) with rest; [done|].
    rewrite <- drop_drop, drop_app_length. done.
  - apply not_elem_of_cons in Hpre as [Hc Hpre].
    change ((c :: pre) ++ js "//" ++ cred ++ [64%Z] ++ rest)
      with (c :: (pre ++ js "//" ++ cred ++ [64%Z] ++ rest)).
    cbn [hide_credentials].
    assert (startsWith (js "//") (c :: pre ++ js "//" ++ cred ++ [64%Z] ++ rest)
            = false) as ->.
    { change (js "//") with [47%Z; 47%Z]. cbn [startsWith].
      rewrite bool_decide_eq_false_2; [done|]. congruence. }
    by rewrite (IH Hpre).
Qed.

Lemma hide_credentials_masks_witness :
  hide_credentials (js "bolt://neo4j:p@ss/word@db.example.com:7687")
  = js "bolt://***@db.example.com:7687".
Proof.
  refine (hide_credentials_masks (js "bolt:") (js "neo4j:p@ss/word")
            (js "db.example.com:7687") _ _ _).
  - apply (bool_decide_unpack _). vm_compute. reflexivity.
  - apply (bool_decide_unpack _). vm_compute. reflexivity.
  - apply (bool_decide_unpack _). vm_compute. reflexivity.
Defined.

Lemma load_all_spec w urls docs errors fetches :
  FirstServer.load_all w urls docs errors fetches
  = (docs ++ first_loaded w urls, errors ++ first_errors w urls,
     fetches ++ (FirstServer.EFetch <$> urls)).
Proof.
  revert docs errors fetches.
  induction urls as [|url urls IH]; intros docs errors fetches.
  - simpl. by rewrite !app_nil_r.
  - cbn [FirstServer.load_all]. unfold first_loaded, first_errors.
    cbn [flat_map fmap list_fmap].
    destruct (FirstServer.load w url) as [loadedDocs|message];
      rewrite IH; unfold first_loaded, first_errors;
      by rewrite <- ?app_assoc.
Qed.

Lemma first_errors_length w urls :
  length (first_errors w urls) = length (List.filter (failing w) urls).
Proof.
  unfold first_errors, failing.
  induction urls as [|url urls IH]; [done|]. cbn [flat_map List.filter].
  destruct (FirstServer.load w url); simpl; by rewrite ?IH.
Qed.

(** X24: [POST /api/add-urls] on a server with a store, for a body whose
    [urls] is an array.  Every item is fetched, in order, whether earlier
    ones failed or not; [errors] has one entry per item that failed.  When
    nothing was loaded, in particular when every item fails or the array is
    empty, the answer is still the success answer, with [documentsAdded] 0,
    and neither the splitter nor the store is called.  Otherwise, when
    splitting and adding succeed, the answer counts the loaded documents
    and the store receives the split documents. *)
Theorem post_add_urls_report (w : FirstServer.World) (reqBody : JValue)
    (urls : list JValue) :
  member reqBody (js "urls") = Some (JArr urls) →
  length (first_errors w urls) = length (List.filter (failing w) urls)
  ∧ (first_loaded w urls = [] →
       FirstServer.post_add_urls w true reqBody
       = (FirstServer.added [] (first_errors w urls),
          FirstServer.EFetch <$> urls))
  ∧ (∀ docSplits,
       first_loaded w urls ≠ [] →
       FirstServer.splitDocuments w (first_loaded w urls) = Return docSplits →
       FirstServer.addDocuments w docSplits = Return tt →
       FirstServer.post_add_urls w true reqBody
       = (FirstServer.added (first_loaded w urls) (first_errors w urls),
          (FirstServer.EFetch <$> urls)
          ++ [FirstServer.ESplit (first_loaded w urls);
              FirstServer.EAdd docSplits])).
Proof.
  intros Hm. split; [apply first_errors_length|].
  unfold FirstServer.post_add_urls. rewrite Hm. cbn [negb].
  rewrite load_all_spec. cbn [app]. split.
  - intros ->. done.
  - intros docSplits Hne Hsplit Hadd.
    destruct (first_loaded w urls) as [|d docs] eqn:E; [done|].
    by rewrite Hsplit, Hadd.
Qed.

(** One page that loads between two that fail; then only failing ones. *)
Lemma post_add_urls_report_witness :
  FirstServer.post_add_urls first_world true
    (JObj [(js "urls", JArr [ JStr (js "https://a.example");
                              JStr (js "https://ollama.com");
                              JNum 7%float ])])
  = (FirstServer.added [tagged_doc]
       [ JObj [ (js "url", JStr (js "https://a.example"));
                (js "error", JStr (js "fetch failed")) ];
         JObj [ (js "url", JNum 7%float);
                (js "error", JStr (js "invalid url")) ] ],
     [ FirstServer.EFetch (JStr (js "https://a.example"));
       FirstServer.EFetch (JStr (js "https://ollama.com"));
       FirstServer.EFetch (JNum 7%float);
       FirstServer.ESplit [tagged_doc]; FirstServer.EAdd [tagged_doc] ])
  ∧ FirstServer.post_add_urls first_world true
      (JObj [(js "urls", JArr [JNull])])
    = (FirstServer.added []
         [ JObj [ (js "url", JNull); (js "error", JStr (js "invalid url")) ] ],
       [ FirstServer.EFetch JNull ]).
Proof.
  split.
  - exact (proj2 (proj2 (post_add_urls_report first_world
                           (JObj [(js "urls",
                                   JArr [ JStr (js "https://a.example");
                                          JStr (js "https://ollama.com");
                                          JNum 7%float ])])
                           [ JStr (js "https://a.example");
                             JStr (js "https://ollama.com"); JNum 7%float ]
                           eq_refl))
             [tagged_doc] ltac:(by vm_compute) eq_refl eq_refl).
  - exact (proj1 (proj2 (post_add_urls_report first_world
                           (JObj [(js "urls", JArr [JNull])]) [JNull]
                           eq_refl))
             eq_refl).
Defined.

(** X25: [POST /api/add-urls] rejects before fetching anything.  A body
    whose [urls] is missing or is not an array is answered 400; an array on
    a server without a store is answered 503. *)
Theorem post_add_urls_rejects (w : FirstServer.World) (reqBody v : JValue)
    (has_store : bool) :
  member reqBody (js "urls") = Some v →
  ((∀ urls, v ≠ JArr urls) →
     FirstServer.post_add_urls w has_store reqBody
     = (bad_request (js "URLs array is required"), []))
  ∧ ((∃ urls, v = JArr urls) → has_store = false →
     FirstServer.post_add_urls w has_store reqBody
     = ({| status := 503;
           body := error_body (js "Vector store not initialized") |}, [])).
Proof.
  intros Hm. unfold FirstServer.post_add_urls. rewrite Hm. split.
  - intros Hv. destruct v; try done. by destruct (Hv xs).
  - intros [urls ->] ->. done.
Qed.

Lemma post_add_urls_rejects_witness :
  FirstServer.post_add_urls first_world true
    (JObj [(js "urls", JStr (js "https://ollama.com"))])
  = (bad_request (js "URLs array is required"), [])
  ∧ FirstServer.post_add_urls first_world false
      (JObj [(js "urls", JArr [JStr (js "https://ollama.com")])])
    = ({| status := 503;
          body := error_body (js "Vector store not initialized") |}, []).
Proof.
  split.
  - refine (proj1 (post_add_urls_rejects first_world _
                     (JStr (js "https://ollama.com")) true _) _).
    + vm_compute. reflexivity.
    + intros urls H. discriminate H.
  - refine (proj2 (post_add_urls_rejects first_world _
                     (JArr [JStr (js "https://ollama.com")]) false _) _ _).
    + vm_compute. reflexivity.
    + eexists. reflexivity.
    + reflexivity.
Defined.

Lemma split_length sep s :
  length (split sep s)
  = S (length (List.filter (λ c, bool_decide (c = sep)) s)).
Proof.
  induction s as [|c s IH]; [done|]. cbn [split List.filter].
  destruct (bool_decide (c = sep)); simpl; [by rewrite IH|].
  destruct (split sep s) as [|piece pieces]; simpl in *; lia.
Qed.

(** X26: whenever the component renders its thinking section, the word
    count shown there is one more than the number of space characters of the
    reasoning: consecutive spaces each count, and words separated by line
    breaks only do not.  The count is 0 exactly for a reasoning that is
    [null] or empty.  Without an error that is exactly when the section is
    not rendered; with an error the component returns the error card and
    the section is not rendered, whatever the count. *)
Theorem thinkingWordCount_counts_spaces (thinking : option jsstring)
    (error : JValue) :
  (∀ n t, thinking_section thinking error = Some (n, t) →
     thinking = Some t ∧ t ≠ [] ∧ n = S (spaces t))
  ∧ (truthy error = false →
     (thinkingWordCount thinking = 0 ↔ shows_thinking thinking error = false))
  ∧ (truthy error = true → shows_thinking thinking error = false)
  ∧ (∀ t, thinking = Some t → t ≠ [] →
       thinkingWordCount thinking = S (spaces t)).
Proof.
  assert (∀ t, t ≠ [] → thinkingWordCount (Some t) = S (spaces t)) as Hcount.
  { intros t Hne. simpl. rewrite bool_decide_eq_false_2 by done. simpl.
    apply split_length. }
  split; [|split; [|split]].
  - intros n t. unfold thinking_section.
    destruct (truthy error); [done|].
    destruct thinking as [t'|]; [|done].
    destruct (truthy (JStr t')) eqn:E; [|done].
    intros [= <- <-].
    assert (t' ≠ []) as Hne by (intros ->; vm_compute in E; discriminate).
    split; [done|]. split; [done|]. by apply Hcount.
  - intros Herr. unfold shows_thinking, thinking_section. rewrite Herr.
    destruct thinking as [t|].
    + destruct (decide (t = [])) as [->|Hne]; [done|].
      rewrite (Hcount t Hne). cbn [truthy].
      rewrite (bool_decide_eq_false_2 (t = [])) by done. cbn [negb].
      split; [lia|].
      intros H. apply bool_decide_eq_false_1 in H. exfalso. apply H.
      by eexists.
    + split; [|done]. intros _. apply bool_decide_eq_false_2.
      by intros [? ?].
  - intros Herr. unfold shows_thinking, thinking_section. rewrite Herr.
    apply bool_decide_eq_false_2. by intros [? ?].
  - intros t -> Hne. by apply Hcount.
Qed.

(** Two spaces between two words; a line break between two words; and an
    error, with which nothing of the reasoning is rendered. *)
Lemma thinkingWordCount_counts_spaces_witness :
  thinking_section (Some (js "two  words")) JNull
  = Some (3, js "two  words")
  ∧ thinkingWordCount (Some (js "two" ++ [10%Z] ++ js "words")) = 1
  ∧ thinkingWordCount (Some (js "two  words")) = 3
  ∧ shows_thinking (Some (js "two  words")) (JStr (js "Request failed"))
    = false.
Proof.
  split; [vm_compute; reflexivity|]. split; [|split].
  - refine (eq_trans
      (proj2 (proj2 (proj2 (thinkingWordCount_counts_spaces _ JNull)))
         _ eq_refl _) _).
    + discriminate.
    + vm_compute. reflexivity.
  - destruct (proj1 (thinkingWordCount_counts_spaces
                       (Some (js "two  words")) JNull)
                3 (js "two  words") ltac:(vm_compute; reflexivity))
      as (_ & _ & _).
    vm_compute. reflexivity.
  - apply (proj1 (proj2 (proj2 (thinkingWordCount_counts_spaces
                                  (Some (js "two  words"))
                                  (JStr (js "Request failed")))))).
    vm_compute. reflexivity.
Defined.
